(** * The restaurant recommender agent (src/app/agent/base.py)

    A shallow embedding of [RestaurantRecommenderAgent]: the loop driver
    [invoke], the request orchestrator [handle_request] and the command
    dispatcher [execute_command], with the properties of the specification
    that concern them.

    Python values are modelled as follows.
    - [str] is [string]: the UTF-8 bytes of the text.  UTF-8 is
      self-synchronising, so [sub in s] on code points and on bytes agree.
    - [dict] with [str] keys is [gmap string _].
    - [Optional[str]] is [option string]; [None] is Python's [None].
    - A raised exception is a value of [exn]; a call that may raise returns
      a [result].
    - Calls to the collaborators and to the logger are recorded, in order,
      in a list of [event]s carried by the monad [M]. *)

From Stdlib Require Import Ascii String.
From stdpp Require Import gmap strings list pretty.

(** ** Strings *)

Module Str.

(** The line feed of the escape [\n] and the double quote. *)
Definition LF : string := String (ascii_of_nat 10) EmptyString.
Definition DQUOTE : string := String (ascii_of_nat 34) EmptyString.

(** [s.startswith(p)] *)
Fixpoint startswith (p s : string) : bool :=
  match p, s with
  | EmptyString, _ => true
  | String _ _, EmptyString => false
  | String a p', String b s' => Ascii.eqb a b && startswith p' s'
  end.


(** [sub in s] *)
Fixpoint contains (sub s : string) : bool :=
  startswith sub s ||
  match s with
  | EmptyString => false
  | String _ s' => contains sub s'
  end.

(** [c.lower()] on one character: the ASCII capitals move to the small
    letters, every other byte stays. *)
Definition lower_ascii (c : ascii) : ascii :=
  let n := nat_of_ascii c in
  if (65 <=? n)%nat && (n <=? 90)%nat then ascii_of_nat (n + 32) else c.

(** [s.lower()], for text whose cased letters are ASCII. *)
Fixpoint lower (s : string) : string :=
  match s with
  | EmptyString => EmptyString
  | String c s' => String (lower_ascii c) (lower s')
  end.

(** [sep.join(l)] *)
Fixpoint join (sep : string) (l : list string) : string :=
  match l with
  | [] => EmptyString
  | [x] => x
  | x :: l' => x +:+ sep +:+ join sep l'
  end.


Definition nonempty (s : string) : bool :=
  match s with EmptyString => false | String _ _ => true end.








End Str.

Import Str.

(** ** Exceptions, results and the effect monad *)

(** The exceptions this module can meet.  Every one is an instance of
    Python's [Exception] class, which is what the collaborators raise;
    signals outside that class (interpreter exit, keyboard interrupt,
    cancellation of the task by the event loop) come from the interpreter,
    not from the collaborators, and are not modelled.  Hence
    [except Exception] and a bare [except] catch every [exn]. *)
Inductive exn : Type :=
  | IndexError (msg : string)          (* [l[i]] out of range *)
  | KeyError (key : string)            (* [d[k]] with [k] missing *)
  | AsyncioTimeoutError (msg : string) (* [asyncio.TimeoutError] *)
  | Exception (msg : string).          (* any other exception *)

(** [str(e)] *)
Definition str (e : exn) : string :=
  match e with
  | IndexError msg => msg
  | KeyError key => "'" +:+ key +:+ "'"
  | AsyncioTimeoutError msg => msg
  | Exception msg => msg
  end.

Inductive result (A : Type) : Type :=
  | Return (a : A)
  | Raise (e : exn).
Arguments Return {A} a.
Arguments Raise {A} e.

Inductive level : Type := INFO | WARNING | ERROR.

(** What the module does to the world around it, in order. *)
Inductive event : Type :=
  | Log (lvl : level) (msg : string)
  | LoadMemoryVariables (inputs : gmap string string)
  | Ainvoke (inputs : gmap string string)
  | ParseRequest (text : string)
  | FormatResponse (topic : string).

(** A computation: its outcome and the events it caused. *)
Definition M (A : Type) : Type := result A * list event.

Definition ret {A} (a : A) : M A := (Return a, []).

Definition raise {A} (e : exn) : M A := (Raise e, []).

Definition bind {A B} (m : M A) (k : A → M B) : M B :=
  match m with
  | (Return a, tr) => let '(r, tr') := k a in (r, tr ++ tr')
  | (Raise e, tr) => (Raise e, tr)
  end.

Notation "'do' x <- m ; k" := (bind m (λ x, k))
  (at level 10, x name, m at level 100, k at level 200).
Notation "m ;; k" := (bind m (λ _, k))
  (at level 100, k at level 200, right associativity).

(** [try: body / except Exception as e: handler e] (and the bare [except]) *)
Definition try_except {A} (body : M A) (handler : exn → M A) : M A :=
  match body with
  | (Return a, tr) => (Return a, tr)
  | (Raise e, tr) => let '(r, tr') := handler e in (r, tr ++ tr')
  end.

(** [try: body / except asyncio.TimeoutError: handler] *)
Definition try_except_timeout {A} (body : M A) (handler : M A) : M A :=
  match body with
  | (Raise (AsyncioTimeoutError _), tr) =>
      let '(r, tr') := handler in (r, tr ++ tr')
  | other => other
  end.

(** An effect: the event, then the outcome the world gives. *)
Definition call {A} (ev : event) (r : result A) : M A := (r, [ev]).

Definition logger (lvl : level) (msg : string) : M unit :=
  call (Log lvl msg) (Return ()).

(** [l[i]] *)
Definition getitem_list {A} (l : list A) (i : nat) : M A :=
  match l !! i with
  | Some x => ret x
  | None => raise (IndexError "list index out of range")
  end.

(** [d[k]] *)
Definition getitem {V} (d : gmap string V) (k : string) : M V :=
  match d !! k with
  | Some v => ret v
  | None => raise (KeyError k)
  end.

(** Truth value of an [Optional[str]]: [None] and the empty text are false. *)
Definition truthy (o : option string) : bool :=
  match o with
  | Some s => nonempty s
  | None => false
  end.

(** The text that a true [Optional[str]] holds: what the body of
    [if x:] may use as [x]. *)
Definition as_text (o : option string) : option string :=
  match o with
  | Some s => if nonempty s then Some s else None
  | None => None
  end.

(** [x or d] on an [Optional[str]] *)
Definition or_else (o : option string) (d : string) : string :=
  match o with
  | Some s => if nonempty s then s else d
  | None => d
  end.

(** An [Optional[str]] inside an f-string. *)
Definition fmt (o : option string) : string :=
  match o with
  | Some s => s
  | None => "None"
  end.

(** ** Data model *)

(** [AgentState] (lines 226-236) *)
Record AgentState : Type := {
  messages : list (gmap string string);
  thread_id : string;
  output : option string;
}.

(** [state.output = v] *)
Definition set_output (state : AgentState) (v : option string) : AgentState :=
  {| messages := messages state; thread_id := thread_id state; output := v |}.

(** Modelled from the spec: the command types of app/commands/models, which
    this file imports and only reads.  A query carries its text and four
    optional fields; a command is one of the three variants.  The argument of
    [execute_command] is not annotated, so a fourth case stands for any other
    object, by the text of [type(command)]. *)
Record RestaurantQuery : Type := {
  query : string;
  place : option string;
  cuisine : option string;
  price_range : option string;
  dietary_restrictions : option string;
}.

Inductive Command : Type :=
  | SearchCommand (search_query : RestaurantQuery)
  | RecommendationCommand (recommendation_query : RestaurantQuery)
  | InformationalCommand (topic : string)
  | OtherObject (type_repr : string).

(** Modelled from the spec: [AgentResponse] of app/models/restaurant, built
    here with [success], [message] and, when given, [error]; the two optional
    fields default to [None]. *)
Record AgentResponse : Type := {
  success : bool;
  message : string;
  error : option string;
  parsed_command : option Command;
}.

Definition set_parsed_command (r : AgentResponse) (c : Command) : AgentResponse :=
  {| success := success r; message := message r; error := error r;
     parsed_command := Some c |}.

(** The data-model invariant of [AgentResponse]. *)
Definition invariant (r : AgentResponse) : bool :=
  if success r then nonempty (message r) && bool_decide (error r = None)
  else bool_decide (error r ≠ None).

(** ** The agent and its collaborators *)

Record Tool : Type := { name : string; description : string }.

(** How [agent_executor.ainvoke] behaves within the 20 seconds that
    [asyncio.wait_for] grants it. *)
Inductive execution : Type :=
  | Completes (r : result (gmap string (option string)))
  | Pending.

(** The attributes of [RestaurantRecommenderAgent] that the three methods
    use; each collaborator is given by what it answers. *)
Record Agent : Type := {
  tools : list Tool;
  memory : option (gmap string string → result (gmap string string));
  agent_executor : gmap string string → execution;
  command_parser : string → result Command;
  character : string → result string;
}.

(** The agent built with [memory=None], the default of [__init__]. *)
Definition without_memory (self : Agent) : Agent :=
  {| tools := tools self;
     memory := None;
     agent_executor := agent_executor self;
     command_parser := command_parser self;
     character := character self |}.

(** [asyncio.wait_for(aw, timeout=20.0)] *)
Definition wait_for (aw : execution) : result (gmap string (option string)) :=
  match aw with
  | Completes r => r
  | Pending => Raise (AsyncioTimeoutError EmptyString)
  end.

(** ** The loop driver: [invoke] (lines 336-393) *)

(** [_validate_request] (lines 318-329): the validator is commented out. *)
Definition _validate_request (self : Agent) (state : AgentState) : bool := true.

(** The dictionary literal of lines 352-358.  Its first entry reads
    [state.messages[0]["content"]] and is the only one that can raise. *)
Definition input_dict_of (self : Agent) (state : AgentState)
    : M (gmap string string) :=
  do first <- getitem_list (messages state) 0;
  do content <- getitem first "content";
  ret (<["input" := content]>
      (<["agent_scratchpad" := EmptyString]>
      (<["tools" :=
           join LF (map (λ tool, name tool +:+ ": " +:+ description tool)
                        (tools self))]>
      (<["tool_names" := join ", " (map name (tools self))]>
      (<["thread_id" := thread_id state]> ∅))))).

(** Lines 360-369: the memory context, when a memory is configured.  A
    failure of the memory is logged and the dictionary stays as it was. *)
Definition add_memory_context (self : Agent) (input_dict : gmap string string)
    : M (gmap string string) :=
  match memory self with
  | Some load_memory_variables =>
      try_except
        (do memory_vars <- call (LoadMemoryVariables input_dict)
                                (load_memory_variables input_dict);
         if truthy (memory_vars !! "enhanced_context") then
           do context <- getitem memory_vars "enhanced_context";
           ret (<["context" := context]> input_dict)
         else ret input_dict)
        (λ e,
           logger WARNING ("Failed to load memory context: " +:+ str e);;
           ret input_dict)
  | None => ret input_dict
  end.

Definition invoke (self : Agent) (state : AgentState) : M AgentState :=
  try_except
    (if negb (_validate_request self state) then
       let error_message := "Request validation failed" in
       ret (set_output state (Some error_message))
     else
       do input_dict <- input_dict_of self state;
       do input_dict <- add_memory_context self input_dict;
       do input <- getitem input_dict "input";
       logger INFO ("Invoking agent with input: " +:+ input);;
       try_except_timeout
         (do response <- call (Ainvoke input_dict)
                              (wait_for (agent_executor self input_dict));
          let state :=
            set_output state
              (default (Some "No output generated") (response !! "output")) in
          logger INFO "Agent response generated successfully";;
          ret state)
         (let error_msg := "Agent execution timed out after 20 seconds" in
          logger ERROR error_msg;;
          ret (set_output state (Some error_msg))))
    (λ e,
       let error_msg := "Error processing request: " +:+ str e in
       logger ERROR error_msg;;
       ret (set_output state (Some error_msg))).

(** What [invoke] leaves in the state once the executor has answered
    [r] under [wait_for]. *)
Definition settled (state : AgentState)
    (r : result (gmap string (option string))) : AgentState :=
  match r with
  | Return response =>
      set_output state
        (default (Some "No output generated") (response !! "output"))
  | Raise (AsyncioTimeoutError _) =>
      set_output state (Some "Agent execution timed out after 20 seconds")
  | Raise e =>
      set_output state (Some ("Error processing request: " +:+ str e))
  end.

(** ** The request orchestrator: [handle_request] (lines 395-439) *)

(** [AgentResponse(success=..., message=...)] and the form with [error]. *)
Definition response (success : bool) (message : string) : AgentResponse :=
  {| success := success; message := message; error := None;
     parsed_command := None |}.

Definition failure (message error : string) : AgentResponse :=
  {| success := false; message := message; error := Some error;
     parsed_command := None |}.

(** The state built at lines 408-411; [uuid] is [str(uuid.uuid4())]. *)
Definition initial_state (uuid request : string) : AgentState :=
  {| messages := [ <["role" := "user"]> (<["content" := request]> ∅) ];
     thread_id := uuid;
     output := None |}.

(** [handle_request], with the method that [self.invoke] resolves to as a
    parameter: Python looks it up at the call, so a subclass or a test double
    may stand in for the loop driver. *)
Definition handle_request_with (invoke : AgentState → M AgentState)
    (self : Agent) (uuid request : string) : M AgentResponse :=
  try_except
    (logger INFO ("Processing request with agent: " +:+ request);;
     let state := initial_state uuid request in
     do result_state <- invoke state;
     match as_text (output result_state) with
     | Some output =>
         try_except
           (do command <- call (ParseRequest request)
                               (command_parser self request);
            let response := response true output in
            ret (set_parsed_command response command))
           (λ _, ret (response true output))
     | None =>
         ret (failure "No response generated" "Agent did not generate output")
     end)
    (λ e,
       logger ERROR ("Error handling request: " +:+ str e);;
       ret (failure ("Error processing request: " +:+ str e) (str e))).

Definition handle_request (self : Agent) (uuid request : string)
    : M AgentResponse :=
  handle_request_with (invoke self) self uuid request.

(** The response of [handle_request] for each way the loop driver and the
    parser can end. *)
Definition answer (self : Agent) (request : string)
    (driven : result AgentState) : AgentResponse :=
  match driven with
  | Return result_state =>
      match as_text (output result_state) with
      | Some out =>
          match command_parser self request with
          | Return command => set_parsed_command (response true out) command
          | Raise _ => response true out
          end
      | None =>
          failure "No response generated" "Agent did not generate output"
      end
  | Raise e => failure ("Error processing request: " +:+ str e) (str e)
  end.

(** ** The command dispatcher: [execute_command] (lines 441-536) *)

(** [response_msg += f"label{field}\n"] under [if field:] *)
Definition add_line (response_msg label : string) (field : option string)
    : string :=
  match as_text field with
  | Some text => response_msg +:+ label +:+ text +:+ LF
  | None => response_msg
  end.

(** Lines 457-467: the summary of the query's fields. *)
Definition search_summary (q : RestaurantQuery) : string :=
  let response_msg := "🔍 **Searching for restaurants...**" +:+ LF +:+ LF in
  let response_msg := response_msg +:+ "**Query:** " +:+ query q +:+ LF in
  let response_msg := add_line response_msg "**Location:** " (place q) in
  let response_msg := add_line response_msg "**Cuisine:** " (cuisine q) in
  let response_msg :=
    add_line response_msg "**Price Range:** " (price_range q) in
  let response_msg :=
    add_line response_msg "**Dietary Restrictions:** "
             (dietary_restrictions q) in
  response_msg.

(** Lines 471-482: the three illustrative results. *)
Definition top_results (response_msg : string) (q : RestaurantQuery)
    : string :=
  let response_msg :=
    response_msg +:+ LF +:+ "🍽️ **Top Results:**" +:+ LF +:+ LF in
  let response_msg :=
    response_msg +:+ "1. **Karim's** - " +:+ or_else (place q) "Delhi"
      +:+ LF in
  let response_msg :=
    response_msg +:+ "   ⭐ 4.2/5 | Indian Cuisine | Moderate Price" +:+ LF in
  let response_msg :=
    response_msg
      +:+ "   Famous for authentic butter chicken and mughlai cuisine"
      +:+ LF +:+ LF in
  let response_msg :=
    response_msg +:+ "2. **Punjabi By Nature** - "
      +:+ or_else (place q) "Multiple Locations" +:+ LF in
  let response_msg :=
    response_msg +:+ "   ⭐ 4.0/5 | North Indian | Mid-Range" +:+ LF in
  let response_msg :=
    response_msg +:+ "   Known for rich, creamy butter chicken" +:+ LF +:+ LF in
  let response_msg :=
    response_msg +:+ "3. **Moti Mahal Delux** - "
      +:+ or_else (place q) "Delhi" +:+ LF in
  let response_msg :=
    response_msg +:+ "   ⭐ 4.1/5 | Indian | Moderate" +:+ LF in
  let response_msg :=
    response_msg
      +:+ "   Legendary restaurant, birthplace of butter chicken" +:+ LF in
  response_msg.

(** Lines 485-487: the generic answer. *)
Definition generic_results (response_msg : string) (q : RestaurantQuery)
    : string :=
  let response_msg :=
    response_msg +:+ LF +:+ "🍽️ **Found restaurants matching your search!**"
      +:+ LF +:+ LF in
  let response_msg :=
    response_msg +:+ "Here are some great options in "
      +:+ or_else (place q) "your area" +:+ " for " +:+ query q +:+ "."
      +:+ LF in
  let response_msg :=
    response_msg +:+ "I'd be happy to provide more specific recommendations if you can tell me more about what you're looking for!" in
  response_msg.

(** The test of line 470. *)
Definition wants_butter_chicken (q : RestaurantQuery) : bool :=
  contains "butter chicken" (lower (query q)).

(** Lines 457-487: the message of a search. *)
Definition search_message (q : RestaurantQuery) : string :=
  let response_msg := search_summary q in
  if wants_butter_chicken q then top_results response_msg q
  else generic_results response_msg q.

(** Lines 496-506: the message of a recommendation. *)
Definition recommendation_message (q : RestaurantQuery) : string :=
  let response_msg := "🎯 **Restaurant Recommendations**" +:+ LF +:+ LF in
  let response_msg :=
    response_msg +:+ "Based on your request: '" +:+ query q +:+ "'" +:+ LF in
  let response_msg :=
    match as_text (place q) with
    | Some text => response_msg +:+ "Location: " +:+ text +:+ LF +:+ LF
    | None => response_msg
    end in
  let response_msg :=
    response_msg +:+ "Here are some great options I'd recommend:"
      +:+ LF +:+ LF in
  let response_msg :=
    response_msg +:+ "• Look for highly-rated local favorites" +:+ LF in
  let response_msg :=
    response_msg +:+ "• Consider trying authentic cuisine specific to "
      +:+ or_else (place q) "the area" +:+ LF in
  let response_msg :=
    response_msg +:+ "• Check recent reviews for current quality"
      +:+ LF +:+ LF in
  let response_msg :=
    response_msg
      +:+ "Would you like me to search for something more specific?" in
  response_msg.

(** Lines 514-522: the capability summary. *)
Definition help_msg : string :=
  "I can help you find great restaurants! I can:" +:+ LF +:+
  LF +:+
  "- Search for restaurants by location and cuisine" +:+ LF +:+
  "- Find popular dining spots  " +:+ LF +:+
  "- Recommend places based on your preferences" +:+ LF +:+
  "- Provide restaurant details and information" +:+ LF +:+
  "- Help with specific food cravings like " +:+ DQUOTE
    +:+ "best butter chicken" +:+ DQUOTE +:+ LF +:+
  LF +:+
  "Just ask me what you're looking for!".

Definition execute_command (self : Agent) (command : Command)
    : M AgentResponse :=
  try_except
    (match command with
     | SearchCommand q =>
         logger INFO ("Executing search command: query='" +:+ query q
                      +:+ "', place='" +:+ fmt (place q) +:+ "'");;
         ret (response true (search_message q))
     | RecommendationCommand q =>
         logger INFO ("Executing recommendation command: query='"
                      +:+ query q +:+ "', place='" +:+ fmt (place q)
                      +:+ "'");;
         ret (response true (recommendation_message q))
     | InformationalCommand topic =>
         if bool_decide (topic = "help") then
           ret (response true help_msg)
         else
           do text <- call (FormatResponse topic) (character self topic);
           ret (response true text)
     | OtherObject type_repr =>
         ret (failure ("Unknown command type: " +:+ type_repr)
                      "Invalid command type")
     end)
    (λ e,
       logger ERROR ("Error executing command: " +:+ str e);;
       ret (failure (str e) (str e))).

(** ** What a search message is made of *)








(** ** Parts of the methods, named *)

(** The dictionary of lines 352-358 when the first message holds
    [content]. *)
Definition base_input (self : Agent) (state : AgentState) (content : string)
    : gmap string string :=
  <["input" := content]>
  (<["agent_scratchpad" := EmptyString]>
  (<["tools" :=
       join LF (map (λ tool, name tool +:+ ": " +:+ description tool)
                    (tools self))]>
  (<["tool_names" := join ", " (map name (tools self))]>
  (<["thread_id" := thread_id state]> ∅)))).

(** The record that [invoke] writes last, once the executor has answered
    [r] under [wait_for] (lines 381, 385 and 391). *)
Definition final_log (r : result (gmap string (option string))) : event :=
  match r with
  | Return _ => Log INFO "Agent response generated successfully"
  | Raise (AsyncioTimeoutError _) =>
      Log ERROR "Agent execution timed out after 20 seconds"
  | Raise e => Log ERROR ("Error processing request: " +:+ str e)
  end.

(** A query with its empty optional fields turned into absent ones. *)
Definition tidy (q : RestaurantQuery) : RestaurantQuery :=
  {| query := query q;
     place := as_text (place q);
     cuisine := as_text (cuisine q);
     price_range := as_text (price_range q);
     dietary_restrictions := as_text (dietary_restrictions q) |}.

(** ** The logging handler: [on_llm_start] (lines 33-37) *)

(** [s * n] *)
Fixpoint repeat_str (s : string) (n : nat) : string :=
  match n with
  | 0 => EmptyString
  | S n' => s +:+ repeat_str s n'
  end.

(** The loop over [enumerate(prompts)], from index [i] on; [pretty i] is
    the decimal text of [i]. *)
Fixpoint log_prompts (i : nat) (prompts : list string) : M unit :=
  match prompts with
  | [] => ret ()
  | prompt :: prompts' =>
      logger INFO ("Prompt " +:+ pretty i +:+ ":" +:+ LF +:+ prompt +:+ LF);;
      log_prompts (S i) prompts'
  end.

(** [serialized] and the keyword arguments are not used. *)
Definition on_llm_start (prompts : list string) : M unit :=
  logger INFO (LF +:+ repeat_str "=" 50 +:+ LF +:+ "LLM Request:");;
  log_prompts 0 prompts.

(** ** Sample collaborators *)

Module Samples.

Definition restaurant_tools : list Tool :=
  [ {| name := "search_restaurants";
       description := "Search for restaurants" |};
    {| name := "create_collection";
       description := "Create an empty collection" |};
    {| name := "create_collection_with_restaurants";
       description := "Create a collection with restaurants" |} ].

Definition pizza_query : RestaurantQuery :=
  {| query := "pizza"; place := Some "Rome"; cuisine := None;
     price_range := None; dietary_restrictions := None |}.

(** A parser that classifies every text that has a letter [z] as a search
    and fails on the rest. *)
Definition parser (text : string) : result Command :=
  if contains "z" text then
    Return (SearchCommand
              {| query := text; place := None; cuisine := None;
                 price_range := None; dietary_restrictions := None |})
  else Raise (Exception "Could not classify request").

Definition formatter (topic : string) : result string :=
  Return ("About " +:+ topic).

(** An agent whose executor answers at once. *)
Definition quick (answer : option string) : Agent :=
  {| tools := restaurant_tools;
     memory := None;
     agent_executor := λ _, Completes (Return {[ "output" := answer ]});
     command_parser := parser;
     character := formatter |}.

(** An agent whose executor never finishes in time. *)
Definition slow : Agent :=
  {| tools := restaurant_tools;
     memory := None;
     agent_executor := λ _, Pending;
     command_parser := parser;
     character := formatter |}.


(** An agent whose memory fails, and the same agent with a memory that
    supplies a context. *)
Definition forgetful : Agent :=
  {| tools := restaurant_tools;
     memory := Some (λ _, Raise (Exception "memory store unavailable"));
     agent_executor :=
       λ _, Completes (Return {[ "output" := Some "Try Da Michele." ]});
     command_parser := parser;
     character := formatter |}.

Definition mindful : Agent :=
  {| tools := restaurant_tools;
     memory :=
       Some (λ _, Return {[ "enhanced_context" := "Likes Naples" ]});
     agent_executor :=
       λ _, Completes (Return {[ "output" := Some "Try Da Michele." ]});
     command_parser := parser;
     character := formatter |}.

(** An agent whose formatter has nothing to say. *)
Definition laconic : Agent :=
  {| tools := restaurant_tools;
     memory := None;
     agent_executor := λ _, Pending;
     command_parser := parser;
     character := λ _, Return EmptyString |}.

(** The dictionary that [invoke] builds for the request "pizza" on
    thread "t1". *)
Definition pizza_input : gmap string string :=
  <["input" := "pizza"]>
  (<["agent_scratchpad" := EmptyString]>
  (<["tools" :=
       "search_restaurants: Search for restaurants" +:+ LF +:+
       "create_collection: Create an empty collection" +:+ LF +:+
       "create_collection_with_restaurants: Create a collection with restaurants"]>
  (<["tool_names" :=
       "search_restaurants, create_collection, create_collection_with_restaurants"]>
  (<["thread_id" := "t1"]> ∅)))).

(** The scenario of the specification, and a query that names the three
    establishments itself. *)
Definition butter_chicken_in_delhi : RestaurantQuery :=
  {| query := "find me good butter chicken in Delhi";
     place := Some "Delhi"; cuisine := None; price_range := None;
     dietary_restrictions := None |}.



(** A conversation of two messages on thread "t1". *)
Definition two_messages : AgentState :=
  {| messages := [ <["role" := "user"]> (<["content" := "pizza"]> ∅);
                   <["role" := "user"]> (<["content" := "sushi"]> ∅) ];
     thread_id := "t1";
     output := Some "stale" |}.


End Samples.

(** ** The calls a trace records *)

(** The dictionaries handed to [agent_executor.ainvoke], in order. *)
Definition ainvoke_inputs (tr : list event) : list (gmap string string) :=
  omap (λ ev, match ev with Ainvoke d => Some d | _ => None end) tr.

(** The other calls, and the error records. *)
Definition memory_loads (tr : list event) : list (gmap string string) :=
  omap (λ ev, match ev with LoadMemoryVariables d => Some d | _ => None end)
       tr.

Definition parse_requests (tr : list event) : list string :=
  omap (λ ev, match ev with ParseRequest text => Some text | _ => None end)
       tr.

Definition format_requests (tr : list event) : list string :=
  omap (λ ev, match ev with FormatResponse topic => Some topic | _ => None end)
       tr.

Definition error_logs (tr : list event) : list string :=
  omap (λ ev, match ev with Log ERROR msg => Some msg | _ => None end) tr.

(** ** Lemmas on strings *)

Section StringLemmas.

Lemma app_empty_l (s : string) : EmptyString +:+ s = s.
Proof. reflexivity. Qed.

Lemma app_cons (c : ascii) (s t : string) :
  String c s +:+ t = String c (s +:+ t).
Proof. reflexivity. Qed.


Lemma app_assoc (s t u : string) : (s +:+ t) +:+ u = s +:+ t +:+ u.
Proof.
  induction s as [|c s IH]; [done|]. by rewrite !app_cons, IH.
Qed.

Lemma startswith_refl (s : string) : startswith s s = true.
Proof.
  induction s as [|c s IH]; [done|]. simpl. by rewrite Ascii.eqb_refl.
Qed.

Lemma startswith_app_l (p s t : string) :
  startswith p s = true → startswith p (s +:+ t) = true.
Proof.
  revert s. induction p as [|a p IH]; intros [|b s]; simpl; try done.
  intros [-> ?]%andb_prop. by rewrite IH.
Qed.




Lemma contains_cons (n : string) (c : ascii) (s : string) :
  contains n s = true → contains n (String c s) = true.
Proof. intros H. simpl. rewrite H. apply orb_true_r. Qed.

Lemma contains_startswith (n s : string) :
  startswith n s = true → contains n s = true.
Proof. intros H. destruct s; simpl; by rewrite H. Qed.

Lemma contains_app_r (n s t : string) :
  contains n t = true → contains n (s +:+ t) = true.
Proof.
  intros H. induction s as [|c s IH]; [done|].
  rewrite app_cons. by apply contains_cons.
Qed.

Lemma contains_app_l (n s t : string) :
  contains n s = true → contains n (s +:+ t) = true.
Proof.
  induction s as [|c s IH]; intros H; simpl in H.
  - rewrite orb_false_r in H. apply contains_startswith.
    by apply (startswith_app_l n EmptyString t).
  - apply orb_prop in H as [H|H].
    + apply contains_startswith.
      by apply (startswith_app_l n (String c s) t).
    + rewrite app_cons. apply contains_cons. by apply IH.
Qed.







End StringLemmas.

(** ** Evaluation of the methods on concrete requests *)

Section Examples.
Import Samples.

Example invoke_quick :
  (invoke (quick (Some "Try Da Michele.")) (initial_state "t1" "pizza")).1
  = Return (set_output (initial_state "t1" "pizza")
                       (Some "Try Da Michele.")).
Proof. vm_compute. reflexivity. Qed.

Example invoke_slow_trace :
  (invoke slow (initial_state "t1" "pizza")).2
  = [ Log INFO "Invoking agent with input: pizza";
      Ainvoke pizza_input;
      Log ERROR "Agent execution timed out after 20 seconds" ].
Proof. vm_compute. reflexivity. Qed.

Example handle_request_quick :
  (handle_request (quick (Some "Try Da Michele.")) "t1" "pizza").1
  = Return {| success := true; message := "Try Da Michele.";
              error := None;
              parsed_command :=
                Some (SearchCommand
                        {| query := "pizza"; place := None; cuisine := None;
                           price_range := None;
                           dietary_restrictions := None |}) |}.
Proof. vm_compute. reflexivity. Qed.

Example handle_request_unparsed :
  (handle_request (quick (Some "Hello!")) "t1" "hello").1
  = Return (response true "Hello!").
Proof. vm_compute. reflexivity. Qed.

Example handle_request_silent :
  (handle_request (quick None) "t1" "pizza").1
  = Return (failure "No response generated" "Agent did not generate output").
Proof. vm_compute. reflexivity. Qed.

Example invoke_mindful_context :
  ainvoke_inputs (invoke mindful (initial_state "t1" "pizza")).2
  = [ <["context" := "Likes Naples"]> pizza_input ].
Proof. vm_compute. reflexivity. Qed.

Example invoke_forgetful_trace :
  (invoke forgetful (initial_state "t1" "pizza")).2
  = [ LoadMemoryVariables pizza_input;
      Log WARNING "Failed to load memory context: memory store unavailable";
      Log INFO "Invoking agent with input: pizza";
      Ainvoke pizza_input;
      Log INFO "Agent response generated successfully" ].
Proof. vm_compute. reflexivity. Qed.

Example invoke_no_content :
  (invoke slow {| messages := [ {[ "role" := "user" ]} ];
                  thread_id := "t1"; output := None |}).1
  = Return {| messages := [ {[ "role" := "user" ]} ];
              thread_id := "t1";
              output := Some "Error processing request: 'content'" |}.
Proof. vm_compute. reflexivity. Qed.

Example execute_command_help :
  (execute_command slow (InformationalCommand "help")).1
  = Return (response true help_msg).
Proof. vm_compute. reflexivity. Qed.

End Examples.

(** ** The effect monad *)

Section MonadLemmas.
Context {A : Type}.


Lemma ainvoke_inputs_app (tr1 tr2 : list event) :
  ainvoke_inputs (tr1 ++ tr2) = ainvoke_inputs tr1 ++ ainvoke_inputs tr2.
Proof. apply omap_app. Qed.

End MonadLemmas.

(** ** The loop driver *)

Section Invoke.
Variable self : Agent.

Lemma input_dict_of_cases (state : AgentState) :
  (∃ e, input_dict_of self state = (Raise e, [])) ∨
  (∃ d0 content, input_dict_of self state = (Return d0, []) ∧
                 d0 !! "input" = Some content ∧ d0 !! "context" = None).
Proof.
  unfold input_dict_of, getitem_list, getitem.
  destruct (messages state !! 0) as [first|]; simpl; [|by left; eauto].
  destruct (first !! "content") as [content|]; simpl; [|by left; eauto].
  right. eexists _, content. split; [done|]. by simplify_map_eq.
Qed.

Lemma add_memory_context_spec (d0 : gmap string string) :
  ∃ d tr, add_memory_context self d0 = (Return d, tr) ∧
          ainvoke_inputs tr = [] ∧
          d !! "input" = d0 !! "input" ∧
          (d = d0 ∨ ∃ c, d = <["context" := c]> d0).
Proof.
  unfold add_memory_context.
  destruct (memory self) as [load|]; [|by eexists _, _; eauto].
  unfold call, bind, getitem. simpl.
  destruct (load d0) as [vars|e]; simpl; [|by eexists _, _; eauto].
  destruct (vars !! "enhanced_context") as [c|]; simpl;
    [|by eexists _, _; eauto].
  destruct (nonempty c); simpl; [|by eexists _, _; eauto].
  eexists _, _. split_and!; [done..| |by eauto]. by simplify_map_eq.
Qed.

(** When the memory fails, the dictionary is the one it was given. *)
Lemma add_memory_context_raise (d0 : gmap string string) load e :
  memory self = Some load → load d0 = Raise e →
  add_memory_context self d0
  = (Return d0, [ LoadMemoryVariables d0;
                  Log WARNING ("Failed to load memory context: " +:+ str e) ]).
Proof.
  intros Hm He. unfold add_memory_context. rewrite Hm.
  unfold call, bind. simpl. by rewrite He.
Qed.

(** [invoke] once the input of the executor is known. *)
Lemma invoke_run (state : AgentState) d0 d tr :
  input_dict_of self state = (Return d0, []) →
  is_Some (d0 !! "input") →
  add_memory_context self d0 = (Return d, tr) →
  ainvoke_inputs tr = [] →
  d !! "input" = d0 !! "input" →
  (invoke self state).1 = Return (settled state (wait_for (agent_executor self d)))
  ∧ ainvoke_inputs (invoke self state).2 = [d].
Proof.
  intros Hd0 [content Hc] Hd Htr Hin.
  unfold invoke. simpl. rewrite Hd0. simpl. rewrite Hd. simpl.
  unfold getitem. rewrite Hin, Hc. simpl.
  destruct (wait_for (agent_executor self d)) as [response|e]; simpl.
  - split; [done|]. rewrite !ainvoke_inputs_app, Htr. done.
  - destruct e; simpl; (split; [done|]);
      rewrite ?ainvoke_inputs_app, Htr; done.
Qed.

Lemma invoke_raise_input (state : AgentState) e :
  input_dict_of self state = (Raise e, []) →
  invoke self state
  = (Return (set_output state (Some ("Error processing request: " +:+ str e))),
     [ Log ERROR ("Error processing request: " +:+ str e) ]).
Proof. intros H. unfold invoke. simpl. by rewrite H. Qed.

(** [invoke] calls the executor at most once, and every outcome of that
    call is turned into an output. *)
Lemma invoke_cases (state : AgentState) :
  (∃ e, (input_dict_of self state).1 = Raise e ∧
        ainvoke_inputs (invoke self state).2 = [] ∧
        (invoke self state).1
        = Return (set_output state
                    (Some ("Error processing request: " +:+ str e)))) ∨
  (∃ d, ainvoke_inputs (invoke self state).2 = [d] ∧
        (invoke self state).1
        = Return (settled state (wait_for (agent_executor self d)))).
Proof.
  destruct (input_dict_of_cases state) as [[e He]|(d0 & c & Hd0 & Hc & _)].
  - left. exists e. rewrite (invoke_raise_input _ _ He), He. done.
  - right. destruct (add_memory_context_spec d0) as (d & tr & Hd & Htr & Hin & _).
    exists d. destruct (invoke_run state d0 d tr) as [? ?]; eauto.
Qed.

End Invoke.

(** ** The loop driver never raises *)

Section InvokeClaims.
Variable self : Agent.


(** C10. With no message in the state, reading the first message raises
    [IndexError]; the handler at the end of [invoke] takes it, and the
    state comes back with the error as its output. *)
Theorem invoke_no_messages (thread : string) (out : option string) :
  invoke self {| messages := []; thread_id := thread; output := out |}
  = (Return {| messages := []; thread_id := thread;
               output := Some "Error processing request: list index out of range" |},
     [ Log ERROR "Error processing request: list index out of range" ]).
Proof. reflexivity. Qed.

End InvokeClaims.

(** ** A failing memory *)

Section Memory.
Variable self : Agent.

Lemma input_dict_of_without_memory (state : AgentState) :
  input_dict_of (without_memory self) state = input_dict_of self state.
Proof. reflexivity. Qed.

(** C8. When [load_memory_variables] raises on the dictionary that
    [invoke] hands it, [invoke] still returns a state; the executor is
    called once, with that very dictionary, which has no "context" key;
    and state and executor input are those of the agent that has no
    memory at all. *)
Theorem invoke_memory_failure (state : AgentState)
    (load : gmap string string → result (gmap string string))
    (d0 : gmap string string) (e : exn) :
  memory self = Some load →
  (input_dict_of self state).1 = Return d0 →
  load d0 = Raise e →
  (∃ state', (invoke self state).1 = Return state') ∧
  ainvoke_inputs (invoke self state).2 = [d0] ∧
  d0 !! "context" = None ∧
  (invoke self state).1 = (invoke (without_memory self) state).1 ∧
  ainvoke_inputs (invoke (without_memory self) state).2 = [d0].
Proof.
  intros Hm Hd0 He.
  destruct (input_dict_of_cases self state)
    as [[e' He']|(d & c & Hd & Hc & Hctx)];
    [by rewrite He' in Hd0|].
  rewrite Hd in Hd0. injection Hd0 as ->.
  pose proof (add_memory_context_raise self d0 load e Hm He) as Hmem.
  destruct (invoke_run self state d0 d0 _ Hd (mk_is_Some _ _ Hc) Hmem)
    as [Hr Hi]; [done..|].
  destruct (invoke_run (without_memory self) state d0 d0 [] Hd) as [Hr' Hi'];
    [eauto|done..|].
  rewrite Hr, Hr', Hi, Hi'. split_and!; eauto.
Qed.

End Memory.

(** ** The request orchestrator *)

Section HandleRequest.
Variable self : Agent.
Variables uuid request : string.

Lemma handle_request_with_answer (driver : AgentState → M AgentState) :
  (handle_request_with driver self uuid request).1
  = Return (answer self request (driver (initial_state uuid request)).1).
Proof.
  unfold handle_request_with, answer. simpl.
  destruct (driver (initial_state uuid request)) as [[rs|e] tr]; simpl;
    [|done].
  destruct (as_text (output rs)) as [out|]; simpl; [|done].
  by destruct (command_parser self request).
Qed.

Lemma handle_request_with_trace (driver : AgentState → M AgentState) :
  ainvoke_inputs (handle_request_with driver self uuid request).2
  = ainvoke_inputs (driver (initial_state uuid request)).2.
Proof.
  unfold handle_request_with. simpl.
  destruct (driver (initial_state uuid request)) as [[rs|e] tr]; simpl;
    [|by rewrite ainvoke_inputs_app, app_nil_r].
  destruct (as_text (output rs)) as [out|]; simpl;
    [|by rewrite ainvoke_inputs_app, app_nil_r].
  destruct (command_parser self request); simpl;
    by rewrite ainvoke_inputs_app, app_nil_r.
Qed.

Lemma as_text_Some (o : option string) (s : string) :
  as_text o = Some s ↔ o = Some s ∧ s ≠ EmptyString.
Proof.
  destruct o as [[|c t]|]; simpl.
  - split; [done|]. by intros [[= <-] ?].
  - split; [by intros [= <-]|]. by intros [? _].
  - split; [done|]. by intros [? _].
Qed.

Lemma as_text_None (o : option string) :
  as_text o = None ↔ o = None ∨ o = Some EmptyString.
Proof.
  destruct o as [[|c t]|]; simpl.
  - split; [by right|done].
  - split; [done|]. by intros [?|?].
  - split; [by left|done].
Qed.


(** C9. When the state that [invoke] returns has a non-empty output,
    [handle_request] answers [success = true] with that output as the
    message, and with the parsed command when the parser returns one; when
    the parser raises, the answer is the same without a parsed command.
    When the output is absent or empty, the answer is [success = false]
    with the message "No response generated" and the error
    "Agent did not generate output". *)
Theorem handle_request_output (result_state : AgentState) :
  (invoke self (initial_state uuid request)).1 = Return result_state →
  (∀ out,
     output result_state = Some out → out ≠ EmptyString →
     (∀ command,
        command_parser self request = Return command →
        (handle_request self uuid request).1
        = Return {| success := true; message := out; error := None;
                    parsed_command := Some command |}) ∧
     (∀ e,
        command_parser self request = Raise e →
        (handle_request self uuid request).1
        = Return {| success := true; message := out; error := None;
                    parsed_command := None |})) ∧
  (output result_state = None ∨ output result_state = Some EmptyString →
   (handle_request self uuid request).1
   = Return {| success := false; message := "No response generated";
               error := Some "Agent did not generate output";
               parsed_command := None |}).
Proof.
  intros Hrs. unfold handle_request.
  rewrite handle_request_with_answer, Hrs. simpl. split.
  - intros out Hout Hne.
    assert (as_text (output result_state) = Some out) as ->
      by by apply as_text_Some.
    split; intros ? ->; done.
  - intros H%as_text_None. by rewrite H.
Qed.

(** C1, as the code has it.  When the call of the executor runs out of
    time, [handle_request] answers [success = true]: the message is the
    fixed text about the 20 seconds that [invoke] left as the output, and
    there is no error. *)
Theorem handle_request_timeout :
  (∀ d, d ∈ ainvoke_inputs (handle_request self uuid request).2 →
        ∃ msg, wait_for (agent_executor self d)
               = Raise (AsyncioTimeoutError msg)) →
  ∃ resp,
    (handle_request self uuid request).1 = Return resp ∧
    success resp = true ∧
    message resp = "Agent execution timed out after 20 seconds" ∧
    error resp = None.
Proof.
  unfold handle_request. rewrite handle_request_with_trace.
  rewrite handle_request_with_answer. intros Hto.
  destruct (input_dict_of_cases self (initial_state uuid request))
    as [[e He]|(d0 & c & Hd0 & Hc & _)]; [done|].
  destruct (invoke_cases self (initial_state uuid request))
    as [(e & He & _)|(d & Hd & Hr)]; [by rewrite Hd0 in He|].
  destruct (Hto d) as [msg Hmsg]; [rewrite Hd; apply list_elem_of_here|].
  rewrite Hr, Hmsg. simpl.
  destruct (command_parser self request); eauto.
Qed.

End HandleRequest.

(** ** The command dispatcher *)

Section ExecuteCommand.
Variable self : Agent.


(** C6. A command that is none of the three variants gets
    [success = false] and the error "Invalid command type"; the message
    names the type of the object. *)
Theorem execute_command_unknown (type_repr : string) :
  execute_command self (OtherObject type_repr)
  = (Return {| success := false;
               message := "Unknown command type: " +:+ type_repr;
               error := Some "Invalid command type";
               parsed_command := None |}, []).
Proof. reflexivity. Qed.


Lemma execute_command_recommendation (q : RestaurantQuery) :
  (execute_command self (RecommendationCommand q)).1
  = Return (response true (recommendation_message q)).
Proof. reflexivity. Qed.


End ExecuteCommand.

(** ** Search messages *)

Section SearchMessage.







Section Free.
Variable n : string.






End Free.

End SearchMessage.

(** ** The search branch of the dispatcher *)

Section SearchClaims.
Variable self : Agent.






End SearchClaims.

(** ** The invariant of the responses *)

Section Invariant.
Variable self : Agent.

Lemma nonempty_app_l (s t : string) :
  nonempty s = true → nonempty (s +:+ t) = true.
Proof. by destruct s. Qed.

Lemma nonempty_add_line (msg label : string) (field : option string) :
  nonempty msg = true → nonempty (add_line msg label field) = true.
Proof.
  intros H. unfold add_line. destruct (as_text field); [|done].
  by apply nonempty_app_l.
Qed.

Lemma nonempty_search_message (q : RestaurantQuery) :
  nonempty (search_message q) = true.
Proof.
  assert (nonempty (search_summary q) = true) as H.
  { unfold search_summary. by do 4 apply nonempty_add_line. }
  unfold search_message, top_results, generic_results.
  destruct (wants_butter_chicken q); by do 10 try apply nonempty_app_l.
Qed.

Lemma nonempty_recommendation_message (q : RestaurantQuery) :
  nonempty (recommendation_message q) = true.
Proof.
  unfold recommendation_message. do 5 apply nonempty_app_l.
  by destruct (as_text (place q)).
Qed.

Lemma invariant_failure (message error : string) :
  invariant (failure message error) = true.
Proof. done. Qed.

Lemma invariant_response (message : string) :
  nonempty message = true → invariant (response true message) = true.
Proof. unfold invariant. simpl. by intros ->. Qed.

Lemma invariant_answer (request : string) (driven : result AgentState) :
  invariant (answer self request driven) = true.
Proof.
  destruct driven as [rs|e]; simpl; [|done].
  destruct (as_text (output rs)) as [out|] eqn:E; [|done].
  apply as_text_Some in E as [_ Hne].
  assert (nonempty out = true) as Hout by by destruct out.
  destruct (command_parser self request); unfold invariant; simpl;
    by rewrite Hout.
Qed.

(** C3, as the code has it.  Every response of [handle_request],
    whatever the loop driver does, satisfies the invariant.  Every response
    of [execute_command] satisfies it too, with one proviso: for an
    informational command with a topic other than "help" the message is
    the text of the formatter as it comes, so the invariant needs that text
    to be non-empty. *)
Theorem responses_invariant :
  (∀ driver uuid request resp tr,
     handle_request_with driver self uuid request = (Return resp, tr) →
     invariant resp = true) ∧
  (∀ command resp tr,
     execute_command self command = (Return resp, tr) →
     (∀ topic text,
        command = InformationalCommand topic → topic ≠ "help" →
        character self topic = Return text → text ≠ EmptyString) →
     invariant resp = true).
Proof.
  split.
  - intros driver uuid request resp tr H.
    pose proof (handle_request_with_answer self uuid request driver) as Ha.
    rewrite H in Ha. injection Ha as ->. apply invariant_answer.
  - intros command resp tr H Hfmt.
    destruct command as [q|q|topic|type_repr].
    + injection H as <- _. apply invariant_response, nonempty_search_message.
    + injection H as <- _.
      apply invariant_response, nonempty_recommendation_message.
    + unfold execute_command in H. case_bool_decide as Htopic.
      * by injection H as <- _.
      * unfold call, bind in H.
        destruct (character self topic) as [text|e] eqn:E;
          injection H as <- _; [|done].
        apply invariant_response.
        specialize (Hfmt topic text eq_refl Htopic E). by destruct text.
    + by injection H as <- _.
Qed.

End Invariant.

(** ** The theorems at work on the sample agents *)

Section Runs.
Import Samples.


(** The failing memory of [forgetful]. *)
Lemma invoke_memory_failure_witness :
  memory forgetful
  = Some (λ _, Raise (Exception "memory store unavailable")) ∧
  (input_dict_of forgetful (initial_state "t1" "pizza")).1
  = Return pizza_input ∧
  ainvoke_inputs (invoke forgetful (initial_state "t1" "pizza")).2
  = [pizza_input] ∧
  pizza_input !! "context" = None ∧
  (invoke forgetful (initial_state "t1" "pizza")).1
  = (invoke (without_memory forgetful) (initial_state "t1" "pizza")).1.
Proof.
  split; [reflexivity|]. split; [vm_compute; reflexivity|].
  destruct (invoke_memory_failure forgetful (initial_state "t1" "pizza")
              (λ _, Raise (Exception "memory store unavailable"))
              pizza_input (Exception "memory store unavailable"))
    as (_ & Hin & Hctx & Heq & _);
    [reflexivity|vm_compute; reflexivity|reflexivity|].
  by split_and!.
Defined.


(** An answer with a parsed command, and an empty answer. *)
Lemma handle_request_output_witness :
  (invoke (quick (Some "Try Da Michele.")) (initial_state "t1" "pizza")).1
  = Return (set_output (initial_state "t1" "pizza")
              (Some "Try Da Michele.")) ∧
  (handle_request (quick (Some "Try Da Michele.")) "t1" "pizza").1
  = Return {| success := true; message := "Try Da Michele.";
              error := None;
              parsed_command :=
                Some (SearchCommand
                        {| query := "pizza"; place := None; cuisine := None;
                           price_range := None;
                           dietary_restrictions := None |}) |} ∧
  (invoke (quick (Some EmptyString)) (initial_state "t1" "pizza")).1
  = Return (set_output (initial_state "t1" "pizza") (Some EmptyString)) ∧
  (handle_request (quick (Some EmptyString)) "t1" "pizza").1
  = Return {| success := false; message := "No response generated";
              error := Some "Agent did not generate output";
              parsed_command := None |}.
Proof.
  split; [vm_compute; reflexivity|]. split.
  - destruct (handle_request_output (quick (Some "Try Da Michele."))
                "t1" "pizza"
                (set_output (initial_state "t1" "pizza")
                   (Some "Try Da Michele.")))
      as [Hout _]; [vm_compute; reflexivity|].
    destruct (Hout "Try Da Michele.") as [Hparsed _];
      [reflexivity|discriminate|].
    apply Hparsed. vm_compute. reflexivity.
  - split; [vm_compute; reflexivity|].
    destruct (handle_request_output (quick (Some EmptyString)) "t1" "pizza"
                (set_output (initial_state "t1" "pizza")
                   (Some EmptyString)))
      as [_ Hnone]; [vm_compute; reflexivity|].
    apply Hnone. right. reflexivity.
Defined.

(** The timeout of [slow], through [handle_request]. *)
Lemma handle_request_timeout_witness :
  (∀ d, wait_for (agent_executor slow d)
        = Raise (AsyncioTimeoutError EmptyString)) ∧
  ∃ resp,
    (handle_request slow "t1" "pizza").1 = Return resp ∧
    success resp = true ∧
    message resp = "Agent execution timed out after 20 seconds" ∧
    error resp = None.
Proof.
  split; [reflexivity|].
  apply (handle_request_timeout slow "t1" "pizza").
  intros d _. exists EmptyString. reflexivity.
Defined.

(** C1, as the specification states it, fails: the executor of [slow]
    runs out of time, and the response is not a failure. *)
Lemma handle_request_timeout_counterexample :
  (∀ d, wait_for (agent_executor slow d)
        = Raise (AsyncioTimeoutError EmptyString)) ∧
  (handle_request slow "t1" "pizza").1
  = Return {| success := true;
              message := "Agent execution timed out after 20 seconds";
              error := None;
              parsed_command :=
                Some (SearchCommand
                        {| query := "pizza"; place := None; cuisine := None;
                           price_range := None;
                           dietary_restrictions := None |}) |} ∧
  ¬ ∃ resp,
      (handle_request slow "t1" "pizza").1 = Return resp ∧
      success resp = false.
Proof.
  split; [reflexivity|].
  assert ((handle_request slow "t1" "pizza").1
          = Return {| success := true;
                      message := "Agent execution timed out after 20 seconds";
                      error := None;
                      parsed_command :=
                        Some (SearchCommand
                                {| query := "pizza"; place := None;
                                   cuisine := None; price_range := None;
                                   dietary_restrictions := None |}) |}) as H
    by (vm_compute; reflexivity).
  split; [exact H|]. intros (resp & Hresp & Hfail).
  rewrite H in Hresp. injection Hresp as <-. discriminate.
Qed.




(** The invariant on a response of each entry point. *)
Lemma responses_invariant_witness :
  handle_request slow "t1" "pizza"
  = (Return {| success := true;
               message := "Agent execution timed out after 20 seconds";
               error := None;
               parsed_command :=
                 Some (SearchCommand
                         {| query := "pizza"; place := None;
                            cuisine := None; price_range := None;
                            dietary_restrictions := None |}) |},
     (handle_request slow "t1" "pizza").2) ∧
  invariant {| success := true;
               message := "Agent execution timed out after 20 seconds";
               error := None;
               parsed_command :=
                 Some (SearchCommand
                         {| query := "pizza"; place := None;
                            cuisine := None; price_range := None;
                            dietary_restrictions := None |}) |} = true ∧
  execute_command slow (InformationalCommand "about")
  = (Return (response true "About about"), [ FormatResponse "about" ]) ∧
  invariant (response true "About about") = true.
Proof.
  destruct (responses_invariant slow) as [Hhandle Hexecute].
  split; [vm_compute; reflexivity|]. split.
  - apply (Hhandle (invoke slow) "t1" "pizza" _
             (handle_request slow "t1" "pizza").2).
    vm_compute. reflexivity.
  - split; [reflexivity|].
    apply (Hexecute (InformationalCommand "about") _
             [ FormatResponse "about" ]); [reflexivity|].
    intros topic text [= <-] _ [= <-]. discriminate.
Defined.

(** C3, as the specification states it, fails: the formatter of
    [laconic] returns the empty text, and the dispatcher passes it on in a
    response with [success = true]. *)
Lemma responses_invariant_counterexample :
  character laconic "about" = Return EmptyString ∧
  execute_command laconic (InformationalCommand "about")
  = (Return {| success := true; message := EmptyString; error := None;
               parsed_command := None |}, [ FormatResponse "about" ]) ∧
  invariant {| success := true; message := EmptyString; error := None;
               parsed_command := None |} = false.
Proof. split_and!; reflexivity. Qed.

End Runs.

(** ** More on the loop driver *)

Section InvokeTrace.
Variable self : Agent.

Lemma input_dict_of_base (state : AgentState) first content :
  messages state !! 0 = Some first → first !! "content" = Some content →
  input_dict_of self state = (Return (base_input self state content), []).
Proof.
  intros H0 Hc. unfold input_dict_of, getitem_list, getitem.
  rewrite H0. simpl. by rewrite Hc.
Qed.

Lemma input_dict_of_inv (state : AgentState) d0 tr :
  input_dict_of self state = (Return d0, tr) →
  ∃ first content,
    messages state !! 0 = Some first ∧ first !! "content" = Some content ∧
    d0 = base_input self state content.
Proof.
  unfold input_dict_of, getitem_list, getitem.
  destruct (messages state !! 0) as [first|]; simpl; [|done].
  destruct (first !! "content") as [content|] eqn:Hc; simpl; [|done].
  intros [= <- _]. by exists first, content.
Qed.

(** What the block of lines 360-369 returns and calls, case by case. *)
Lemma add_memory_context_full (d0 : gmap string string) :
  add_memory_context self d0
  = match memory self with
    | None => (Return d0, [])
    | Some load =>
        match load d0 with
        | Raise e =>
            (Return d0,
             [ LoadMemoryVariables d0;
               Log WARNING ("Failed to load memory context: " +:+ str e) ])
        | Return vars =>
            match as_text (vars !! "enhanced_context") with
            | Some c =>
                (Return (<["context" := c]> d0), [ LoadMemoryVariables d0 ])
            | None => (Return d0, [ LoadMemoryVariables d0 ])
            end
        end
    end.
Proof.
  unfold add_memory_context. destruct (memory self) as [load|]; [|done].
  unfold call, bind, getitem. simpl.
  destruct (load d0) as [vars|e]; simpl; [|done].
  destruct (vars !! "enhanced_context") as [c|]; simpl; [|done].
  by destruct (nonempty c).
Qed.

(** The whole of [invoke] when the first message has a content. *)
Lemma invoke_full (state : AgentState) first content d tr :
  messages state !! 0 = Some first → first !! "content" = Some content →
  add_memory_context self (base_input self state content) = (Return d, tr) →
  invoke self state
  = (Return (settled state (wait_for (agent_executor self d))),
     tr ++ [ Log INFO ("Invoking agent with input: " +:+ content);
             Ainvoke d;
             final_log (wait_for (agent_executor self d)) ]).
Proof.
  intros H0 Hc Hd. unfold invoke. simpl.
  rewrite (input_dict_of_base state first content H0 Hc). simpl.
  rewrite Hd. simpl.
  assert (d !! "input" = Some content) as Hin.
  { rewrite add_memory_context_full in Hd.
    destruct (memory self) as [load|]; [|by injection Hd as <- _].
    destruct (load _) as [vars|e]; [|by injection Hd as <- _].
    destruct (as_text _); by injection Hd as <- _. }
  unfold getitem. rewrite Hin. simpl.
  destruct (wait_for (agent_executor self d)) as [response|e]; simpl;
    [done|]. destruct e; simpl; by rewrite <- ?(assoc_L (++)).
Qed.

(** The two ways [invoke] can go: the first message cannot be read, or
    the executor is called. *)
Lemma invoke_shape (state : AgentState) :
  (∃ e, input_dict_of self state = (Raise e, []) ∧
        invoke self state
        = (Return (set_output state
                     (Some ("Error processing request: " +:+ str e))),
           [ Log ERROR ("Error processing request: " +:+ str e) ])) ∨
  (∃ first content d tr,
     messages state !! 0 = Some first ∧ first !! "content" = Some content ∧
     add_memory_context self (base_input self state content) = (Return d, tr) ∧
     invoke self state
     = (Return (settled state (wait_for (agent_executor self d))),
        tr ++ [ Log INFO ("Invoking agent with input: " +:+ content);
                Ainvoke d;
                final_log (wait_for (agent_executor self d)) ])).
Proof.
  destruct (input_dict_of_cases self state) as [[e He]|(d0 & c & Hd0 & _)].
  - left. exists e. split; [done|]. by apply invoke_raise_input.
  - right. apply input_dict_of_inv in Hd0 as (first & content & H0 & Hc & ->).
    destruct (add_memory_context_spec self (base_input self state content))
      as (d & tr & Hd & _).
    exists first, content, d, tr. split_and!; [done..|].
    by apply invoke_full with first.
Qed.

Lemma add_memory_context_quiet (d0 d : gmap string string) tr :
  add_memory_context self d0 = (Return d, tr) →
  ainvoke_inputs tr = [] ∧ error_logs tr = [] ∧ parse_requests tr = [] ∧
  format_requests tr = [].
Proof.
  rewrite add_memory_context_full.
  destruct (memory self) as [load|]; [|by intros [= _ <-]].
  destruct (load d0) as [vars|e]; [|by intros [= _ <-]].
  destruct (as_text _); by intros [= _ <-].
Qed.

End InvokeTrace.

Section InvokeMore.
Variable self : Agent.

Lemma base_input_context (state : AgentState) (content : string) :
  base_input self state content !! "context" = None.
Proof. unfold base_input. by simplify_map_eq. Qed.

Lemma event_lists_app (tr1 tr2 : list event) :
  error_logs (tr1 ++ tr2) = error_logs tr1 ++ error_logs tr2 ∧
  parse_requests (tr1 ++ tr2) = parse_requests tr1 ++ parse_requests tr2 ∧
  format_requests (tr1 ++ tr2) = format_requests tr1 ++ format_requests tr2 ∧
  memory_loads (tr1 ++ tr2) = memory_loads tr1 ++ memory_loads tr2.
Proof. split_and!; apply omap_app. Qed.

Lemma tail_inputs (tr : list event) (c : string) (d : gmap string string)
    (r : result (gmap string (option string))) :
  ainvoke_inputs tr = [] →
  ainvoke_inputs (tr ++ [ Log INFO c; Ainvoke d; final_log r ]) = [d].
Proof. intros H. rewrite ainvoke_inputs_app, H. by destruct r as [|[]]. Qed.

(** X1. The dictionary that [invoke] hands to the executor is the one of
    lines 352-358, built from the content of the first message, the thread
    id and the tools; the memory can add the key "context" and changes
    nothing else.  The executor is called with it once. *)
Theorem invoke_executor_input (state : AgentState) (d : gmap string string) :
  d ∈ ainvoke_inputs (invoke self state).2 →
  ∃ first content,
    messages state !! 0 = Some first ∧ first !! "content" = Some content ∧
    d !! "input" = Some content ∧
    d !! "thread_id" = Some (thread_id state) ∧
    d !! "agent_scratchpad" = Some EmptyString ∧
    delete "context" d = base_input self state content ∧
    ainvoke_inputs (invoke self state).2 = [d].
Proof.
  destruct (invoke_shape self state)
    as [(e & _ & ->)|(first & content & d' & tr & H0 & Hc & Hd & ->)];
    [by intros ?%elem_of_nil|].
  destruct (add_memory_context_quiet self _ _ _ Hd) as (Htr & _).
  simpl. rewrite (tail_inputs _ _ _ _ Htr).
  intros ->%list_elem_of_singleton. exists first, content.
  pose proof (base_input_context state content) as Hctx.
  assert (d' = base_input self state content ∨
          ∃ c, d' = <["context" := c]> (base_input self state content))
    as [->| [c ->]].
  { rewrite add_memory_context_full in Hd.
    destruct (memory self) as [load|]; [|by injection Hd as <- _; left].
    destruct (load _) as [vars|e]; [|by injection Hd as <- _; left].
    destruct (as_text _) as [c|]; injection Hd as <- _; eauto. }
  - split_and!; try done; try (by unfold base_input; simplify_map_eq);
      try by apply delete_id.
  - split_and!; try done; try (by unfold base_input; simplify_map_eq);
      try by apply delete_insert_id.
Qed.

(** X2. The executor's input has the key "context" exactly when a memory
    is configured and [load_memory_variables], called on the dictionary
    without that key, returns a non-empty "enhanced_context"; the value is
    that text. *)
Theorem invoke_context_iff (state : AgentState) (d : gmap string string)
    (c : string) :
  d ∈ ainvoke_inputs (invoke self state).2 →
  d !! "context" = Some c ↔
  ∃ load vars,
    memory self = Some load ∧ load (delete "context" d) = Return vars ∧
    vars !! "enhanced_context" = Some c ∧ c ≠ EmptyString.
Proof.
  destruct (invoke_shape self state)
    as [(e & _ & ->)|(first & content & d' & tr & H0 & Hc & Hd & ->)];
    [by intros ?%elem_of_nil|].
  destruct (add_memory_context_quiet self _ _ _ Hd) as (Htr & _).
  simpl. rewrite (tail_inputs _ _ _ _ Htr).
  intros ->%list_elem_of_singleton.
  pose proof (base_input_context state content) as Hctx.
  rewrite add_memory_context_full in Hd.
  destruct (memory self) as [load|] eqn:Hm.
  - destruct (load _) as [vars|e] eqn:Hl.
    + destruct (as_text _) as [c'|] eqn:Ht; injection Hd as <- _.
      * rewrite delete_insert_id by done. rewrite lookup_insert_eq.
        apply as_text_Some in Ht as [Hv Hne]. split.
        -- intros [= <-]. by exists load, vars.
        -- intros (load' & vars' & [= <-] & Hl' & Hv' & _).
           rewrite Hl in Hl'. injection Hl' as <-. congruence.
      * rewrite delete_id by done. rewrite Hctx. split; [done|].
        intros (load' & vars' & [= <-] & Hl' & Hv' & Hne).
        rewrite Hl in Hl'. injection Hl' as <-.
        assert (as_text (vars !! "enhanced_context") = Some c) as Habs
          by by apply as_text_Some.
        congruence.
    + injection Hd as <- _. rewrite delete_id by done. rewrite Hctx.
      split; [done|]. intros (load' & vars' & [= <-] & Hl' & _). congruence.
  - injection Hd as <- _. rewrite Hctx. split; [done|].
    by intros (load' & vars' & ? & _).
Qed.

(** X3. [invoke] writes the output and nothing else: the state it
    returns has the messages and the thread id it was given.  An output
    already in the state plays no part: the same calls are made and the
    same state comes back. *)
Theorem invoke_frame (state : AgentState) :
  ∃ out,
    (invoke self state).1 = Return (set_output state out) ∧
    ∀ stale, invoke self (set_output state stale) = invoke self state.
Proof.
  assert (∀ stale, invoke self (set_output state stale) = invoke self state)
    as Hstale by reflexivity.
  destruct (invoke_shape self state)
    as [(e & _ & He)|(first & content & d & tr & _ & _ & _ & Hd)].
  - eexists. split; [by rewrite He|done].
  - destruct (wait_for (agent_executor self d)) as [response|[]];
      eexists; (split; [by rewrite Hd|done]).
Qed.

(** X4. [invoke] reads the first message only: two states with the same
    first message and thread id make the same calls and get the same
    output, whatever messages follow. *)
Theorem invoke_first_message_only (state state' : AgentState) :
  messages state !! 0 = messages state' !! 0 →
  thread_id state = thread_id state' →
  (invoke self state).2 = (invoke self state').2 ∧
  ∃ out,
    (invoke self state).1 = Return (set_output state out) ∧
    (invoke self state').1 = Return (set_output state' out).
Proof.
  intros H0 Ht.
  assert (input_dict_of self state = input_dict_of self state') as Hin.
  { unfold input_dict_of, getitem_list. by rewrite H0, Ht. }
  destruct (invoke_shape self state)
    as [(e & He & ->)|(first & content & d & tr & Hf & Hc & Hd & ->)].
  - rewrite Hin in He. rewrite (invoke_raise_input self state' e He).
    split; [done|]. by eexists.
  - assert (base_input self state content = base_input self state' content)
      as Hb by (unfold base_input; by rewrite Ht).
    rewrite Hb in Hd. rewrite H0 in Hf.
    rewrite (invoke_full self state' first content d tr Hf Hc Hd).
    split; [done|].
    destruct (wait_for (agent_executor self d)) as [response|[]];
      by eexists.
Qed.

(** X5. A first message without the key "content": [invoke] calls no
    collaborator, logs one error and returns the state with the output
    "Error processing request: 'content'", the text of the [KeyError]. *)
Theorem invoke_missing_content (state : AgentState)
    (first : gmap string string) :
  messages state !! 0 = Some first → first !! "content" = None →
  invoke self state
  = (Return (set_output state (Some "Error processing request: 'content'")),
     [ Log ERROR "Error processing request: 'content'" ]).
Proof.
  intros H0 Hc. apply (invoke_raise_input self state (KeyError "content")).
  unfold input_dict_of, getitem_list, getitem. rewrite H0. simpl.
  by rewrite Hc.
Qed.

(** X6. When the executor returns a dictionary, the output is the value
    of its key "output", and the text "No output generated" when the key is
    missing. *)
Theorem invoke_output_default (state : AgentState) (d : gmap string string)
    (response : gmap string (option string)) :
  d ∈ ainvoke_inputs (invoke self state).2 →
  wait_for (agent_executor self d) = Return response →
  (∀ value, response !! "output" = Some value →
            (invoke self state).1 = Return (set_output state value)) ∧
  (response !! "output" = None →
   (invoke self state).1
   = Return (set_output state (Some "No output generated"))).
Proof.
  intros Hin Hw.
  destruct (invoke_cases self state) as [(e & _ & Hno & _)|(d' & Hd & ->)].
  - rewrite Hno in Hin. by apply elem_of_nil in Hin.
  - rewrite Hd in Hin. apply list_elem_of_singleton in Hin as ->.
    rewrite Hw. simpl. split; [intros value ->|intros ->]; done.
Qed.

(** X7. Whenever [invoke] logs an error, the text it logs is the output
    it returns; and it logs at most one. *)
Theorem invoke_error_is_output (state : AgentState) (msg : string) :
  msg ∈ error_logs (invoke self state).2 →
  (invoke self state).1 = Return (set_output state (Some msg)) ∧
  error_logs (invoke self state).2 = [msg].
Proof.
  destruct (invoke_shape self state)
    as [(e & _ & ->)|(first & content & d & tr & _ & _ & Hd & ->)]; simpl.
  - by intros ->%list_elem_of_singleton.
  - destruct (add_memory_context_quiet self _ _ _ Hd) as (_ & Htr & _).
    destruct (event_lists_app tr
      [ Log INFO ("Invoking agent with input: " +:+ content); Ainvoke d;
        final_log (wait_for (agent_executor self d)) ]) as [-> _].
    rewrite Htr. simpl.
    destruct (wait_for (agent_executor self d)) as [response|[]]; simpl;
      [by intros ?%elem_of_nil|by intros ->%list_elem_of_singleton..].
Qed.

End InvokeMore.

(** ** More on the request orchestrator *)

Section HandleRequestMore.
Variable self : Agent.
Variables uuid request : string.

Lemma initial_state_content :
  messages (initial_state uuid request) !! 0
  = Some (<["role" := "user"]> (<["content" := request]> ∅)) ∧
  (<["role" := "user"]> (<["content" := request]> ∅) : gmap string string)
    !! "content" = Some request.
Proof. split; [done|]. by simplify_map_eq. Qed.

(** [handle_request] over a loop driver that returns. *)
Lemma handle_request_with_full (driver : AgentState → M AgentState) rs tr :
  driver (initial_state uuid request) = (Return rs, tr) →
  handle_request_with driver self uuid request
  = (Return (answer self request (Return rs)),
     Log INFO ("Processing request with agent: " +:+ request)
       :: tr ++ match as_text (output rs) with
                | Some _ => [ ParseRequest request ]
                | None => []
                end).
Proof.
  intros Hd. unfold handle_request_with. simpl. rewrite Hd. simpl.
  destruct (as_text (output rs)) as [out|]; simpl.
  - destruct (command_parser self request); simpl;
      by rewrite ?app_nil_r, <- ?(assoc_L (++)).
  - by rewrite ?app_nil_r.
Qed.

(** [invoke] on the state that [handle_request] builds. *)
Lemma invoke_initial_state :
  ∃ d tr,
    add_memory_context self
      (base_input self (initial_state uuid request) request) = (Return d, tr) ∧
    invoke self (initial_state uuid request)
    = (Return (settled (initial_state uuid request)
                 (wait_for (agent_executor self d))),
       tr ++ [ Log INFO ("Invoking agent with input: " +:+ request);
               Ainvoke d;
               final_log (wait_for (agent_executor self d)) ]).
Proof.
  destruct initial_state_content as [H0 Hc].
  destruct (add_memory_context_spec self
              (base_input self (initial_state uuid request) request))
    as (d & tr & Hd & _).
  exists d, tr. split; [done|]. by eapply invoke_full.
Qed.

Lemma nonempty_true (s : string) : nonempty s = true ↔ s ≠ EmptyString.
Proof. by destruct s. Qed.

(** The output that [invoke] leaves is empty or absent only when the
    executor returned such an output. *)
Lemma settled_as_text (state : AgentState)
    (r : result (gmap string (option string))) :
  as_text (output (settled state r)) = None ↔
  ∃ response, r = Return response ∧
              (response !! "output" = Some None ∨
               response !! "output" = Some (Some EmptyString)).
Proof.
  destruct r as [response|e]; simpl.
  - rewrite as_text_None. split.
    + destruct (response !! "output") as [value|] eqn:E; simpl;
        [|by intros [|]].
      intros [->| ->]; exists response; eauto.
    + intros (? & [= <-] & [-> | ->]); simpl; eauto.
  - split; [|by intros (? & ? & _)].
    destruct e; simpl; try done.
Qed.

(** The memory leaves every key but "context" as it was. *)
Lemma add_memory_context_keeps (d0 d : gmap string string) tr :
  add_memory_context self d0 = (Return d, tr) →
  ∀ k, k ≠ "context" → d !! k = d0 !! k.
Proof.
  rewrite add_memory_context_full. intros Hd k Hk.
  destruct (memory self) as [load|]; [|by injection Hd as <- _].
  destruct (load d0) as [vars|e]; [|by injection Hd as <- _].
  destruct (as_text _) as [c|]; injection Hd as <- _; [|done].
  by rewrite lookup_insert_ne.
Qed.

(** [invoke] consults neither the parser nor the formatter. *)
Lemma invoke_quiet (state : AgentState) :
  parse_requests (invoke self state).2 = [] ∧
  format_requests (invoke self state).2 = [].
Proof.
  destruct (invoke_shape self state)
    as [(e & _ & ->)|(first & content & d & tr & _ & _ & Hd & ->)];
    [done|].
  destruct (add_memory_context_quiet self _ _ _ Hd) as (_ & _ & Hp & Hf).
  cbn [snd].
  destruct (event_lists_app tr
    [ Log INFO ("Invoking agent with input: " +:+ content); Ainvoke d;
      final_log (wait_for (agent_executor self d)) ]) as (_ & -> & -> & _).
  rewrite Hp, Hf. by destruct (wait_for (agent_executor self d)) as [|[]].
Qed.

(** X8. [handle_request] calls the executor exactly once.  The
    dictionary it receives has the request, unchanged, under "input", the
    fresh thread id under "thread_id" and an empty scratchpad. *)
Theorem handle_request_executor_call :
  ∃ d,
    ainvoke_inputs (handle_request self uuid request).2 = [d] ∧
    d !! "input" = Some request ∧
    d !! "thread_id" = Some uuid ∧
    d !! "agent_scratchpad" = Some EmptyString.
Proof.
  unfold handle_request. rewrite handle_request_with_trace.
  destruct invoke_initial_state as (d & tr & Hd & Hi).
  destruct (add_memory_context_quiet self _ _ _ Hd) as (Htr & _).
  pose proof (add_memory_context_keeps _ _ _ Hd) as Hkeep.
  exists d. rewrite Hi. cbn [snd]. rewrite (tail_inputs _ _ _ _ Htr).
  rewrite !Hkeep by done. unfold base_input. by simplify_map_eq.
Qed.

(** X9. With the real loop driver, [handle_request] fails in one case
    only: the executor returned a dictionary whose "output" is [None] or
    empty.  The response is then the fixed one of lines 427-431.  In every
    other case, a timeout or an exception of the executor included, the
    response has [success = true] and no error. *)
Theorem handle_request_failure_iff :
  ∃ d resp,
    ainvoke_inputs (handle_request self uuid request).2 = [d] ∧
    (handle_request self uuid request).1 = Return resp ∧
    (success resp = false ↔
     ∃ response,
       wait_for (agent_executor self d) = Return response ∧
       (response !! "output" = Some None ∨
        response !! "output" = Some (Some EmptyString))) ∧
    (success resp = false →
     resp = failure "No response generated" "Agent did not generate output") ∧
    (success resp = true → error resp = None).
Proof.
  destruct invoke_initial_state as (d & tr & Hd & Hi).
  destruct (add_memory_context_quiet self _ _ _ Hd) as (Htr & _).
  unfold handle_request.
  rewrite handle_request_with_trace, handle_request_with_answer, Hi.
  simpl. rewrite (tail_inputs _ _ _ _ Htr).
  pose proof (settled_as_text (initial_state uuid request)
                (wait_for (agent_executor self d))) as Hs.
  eexists d, _. split; [done|]. split; [done|].
  destruct (as_text (output (settled _ _))) as [out|].
  - assert (∀ resp', success
      match command_parser self request with
      | Return command => set_parsed_command (response true out) command
      | Raise _ => response true out
      end = false → resp') as Hno
      by (by destruct (command_parser self request)).
    split_and!; [split; [apply Hno|]|apply Hno|].
    + intros H. apply Hs in H. done.
    + by destruct (command_parser self request).
  - split_and!; [split; [intros _; by apply Hs|done]|done..].
Qed.

(** X10. With the real loop driver, the command parser is consulted
    exactly when the response is a success, once and on the request as
    given; a parsed command in the response is what the parser returned
    for that text. *)
Theorem handle_request_parser_calls :
  ∃ resp,
    (handle_request self uuid request).1 = Return resp ∧
    parse_requests (handle_request self uuid request).2
    = (if success resp then [request] else []) ∧
    ∀ command,
      parsed_command resp = Some command →
      command_parser self request = Return command.
Proof.
  destruct (invoke self (initial_state uuid request)) as [r tri] eqn:Hi.
  destruct invoke_initial_state as (d & tr & _ & Hrs).
  rewrite Hi in Hrs. injection Hrs as -> _.
  set (rs := settled (initial_state uuid request)
               (wait_for (agent_executor self d))) in *.
  pose proof (invoke_quiet (initial_state uuid request)) as [Hq _].
  rewrite Hi in Hq. simpl in Hq.
  unfold handle_request.
  rewrite (handle_request_with_full _ _ _ Hi). simpl.
  eexists. split; [done|].
  destruct (event_lists_app tri
    match as_text (output rs) with
    | Some _ => [ ParseRequest request ]
    | None => []
    end) as (_ & Happ & _).
  change (parse_requests (Log INFO ?m :: ?l)) with (parse_requests l).
  rewrite Happ, Hq. simpl.
  destruct (as_text (output rs)) as [out|]; simpl; [|done].
  destruct (command_parser self request) as [c|e]; simpl; split; try done.
  by intros command [= <-].
Qed.

End HandleRequestMore.

(** ** More on the command dispatcher *)

Section ExecuteCommandMore.
Variable self : Agent.


(** X12. The dispatcher works without the model: it calls neither the
    executor nor the memory nor the parser.  It calls the formatter once
    for an informational command with a topic other than "help", and not at
    all otherwise. *)
Theorem execute_command_calls (command : Command) :
  ainvoke_inputs (execute_command self command).2 = [] ∧
  memory_loads (execute_command self command).2 = [] ∧
  parse_requests (execute_command self command).2 = [] ∧
  format_requests (execute_command self command).2
  = match command with
    | InformationalCommand topic =>
        if bool_decide (topic = "help") then [] else [topic]
    | _ => []
    end.
Proof.
  destruct command as [q|q|topic|type_repr]; try done.
  unfold execute_command. case_bool_decide; [done|].
  unfold call, bind. by destruct (character self topic).
Qed.

End ExecuteCommandMore.

(** ** What the messages say *)

Section Messages.

Lemma contains_refl (n : string) : contains n n = true.
Proof. apply contains_startswith, startswith_refl. Qed.

Lemma startswith_self_app (x h : string) : startswith x (x +:+ h) = true.
Proof. apply startswith_app_l, startswith_refl. Qed.

Lemma startswith_app_same (x n h : string) :
  startswith n h = true → startswith (x +:+ n) (x +:+ h) = true.
Proof.
  intros H. induction x as [|c x IH]; [done|].
  rewrite !app_cons. simpl. by rewrite Ascii.eqb_refl.
Qed.

(** Matches the parts of a text against the start of another, and looks
    for the place where they match. *)
Ltac match_parts :=
  first [ apply startswith_self_app
        | apply startswith_refl
        | apply startswith_app_same; match_parts ].

Ltac find_parts :=
  first [ apply contains_startswith; match_parts
        | apply contains_app_r; find_parts ].

Lemma or_else_as_text (o : option string) (d : string) :
  or_else o d = default d (as_text o).
Proof. by destruct o as [[|c s]|]. Qed.

Lemma as_text_idemp (o : option string) : as_text (as_text o) = as_text o.
Proof. by destruct o as [[|c s]|]. Qed.

Lemma contains_add_line (n msg label : string) (field : option string) :
  contains n msg = true → contains n (add_line msg label field) = true.
Proof.
  intros H. unfold add_line. destruct (as_text field); [|done].
  by apply contains_app_l.
Qed.

Lemma contains_own_line (msg label text : string) (field : option string) :
  as_text field = Some text →
  contains (label +:+ text +:+ LF) (add_line msg label field) = true.
Proof.
  intros H. unfold add_line. rewrite H. apply contains_app_r, contains_refl.
Qed.

Lemma startswith_add_line (p msg label : string) (field : option string) :
  startswith p msg = true → startswith p (add_line msg label field) = true.
Proof.
  intros H. unfold add_line. destruct (as_text field); [|done].
  by apply startswith_app_l.
Qed.

(** Whatever the summary has, the message of a search has too. *)
Lemma search_message_keeps (n : string) (q : RestaurantQuery) :
  contains n (search_summary q) = true → contains n (search_message q) = true.
Proof.
  intros H. unfold search_message, top_results, generic_results.
  destruct (wants_butter_chicken q); by do 10 try apply contains_app_l.
Qed.

(** X13. Every search message opens with the heading and the query text
    as given, and has one labelled line for each optional field of the
    query that is set and not empty. *)
Theorem search_message_echo (q : RestaurantQuery) :
  startswith ("🔍 **Searching for restaurants...**" +:+ LF +:+ LF
              +:+ "**Query:** " +:+ query q +:+ LF)
             (search_message q) = true ∧
  (∀ text, as_text (place q) = Some text →
     contains ("**Location:** " +:+ text +:+ LF) (search_message q) = true) ∧
  (∀ text, as_text (cuisine q) = Some text →
     contains ("**Cuisine:** " +:+ text +:+ LF) (search_message q) = true) ∧
  (∀ text, as_text (price_range q) = Some text →
     contains ("**Price Range:** " +:+ text +:+ LF) (search_message q)
     = true) ∧
  (∀ text, as_text (dietary_restrictions q) = Some text →
     contains ("**Dietary Restrictions:** " +:+ text +:+ LF)
              (search_message q) = true).
Proof.
  split_and!.
  - unfold search_message, top_results, generic_results.
    assert (startswith
              ("🔍 **Searching for restaurants...**" +:+ LF +:+ LF
               +:+ "**Query:** " +:+ query q +:+ LF)
              (search_summary q) = true) as H.
    { unfold search_summary. do 4 apply startswith_add_line.
      rewrite !app_assoc. apply startswith_refl. }
    destruct (wants_butter_chicken q); by do 10 try apply startswith_app_l.
  - intros text H. apply search_message_keeps. unfold search_summary.
    do 3 apply contains_add_line. by apply contains_own_line.
  - intros text H. apply search_message_keeps. unfold search_summary.
    do 2 apply contains_add_line. by apply contains_own_line.
  - intros text H. apply search_message_keeps. unfold search_summary.
    do 1 apply contains_add_line. by apply contains_own_line.
  - intros text H. apply search_message_keeps. unfold search_summary.
    by apply contains_own_line.
Qed.

(** X14. In the answer with the example results, each of the three
    results is located at the place of the query when it is set and not
    empty; otherwise the first and the third are located in "Delhi" and the
    second in "Multiple Locations". *)
Theorem top_results_located (q : RestaurantQuery) :
  wants_butter_chicken q = true →
  (∀ text, as_text (place q) = Some text →
     contains ("1. **Karim's** - " +:+ text +:+ LF) (search_message q)
     = true ∧
     contains ("2. **Punjabi By Nature** - " +:+ text +:+ LF)
              (search_message q) = true ∧
     contains ("3. **Moti Mahal Delux** - " +:+ text +:+ LF)
              (search_message q) = true) ∧
  (as_text (place q) = None →
     contains ("1. **Karim's** - " +:+ "Delhi" +:+ LF) (search_message q)
     = true ∧
     contains ("2. **Punjabi By Nature** - " +:+ "Multiple Locations" +:+ LF)
              (search_message q) = true ∧
     contains ("3. **Moti Mahal Delux** - " +:+ "Delhi" +:+ LF)
              (search_message q) = true).
Proof.
  intros Hw. unfold search_message. rewrite Hw. unfold top_results.
  rewrite !app_assoc, !or_else_as_text.
  split; [intros text ->|intros ->]; simpl; split_and!; find_parts.
Qed.

(** X15. Every recommendation message quotes the query text as given.
    When the place is set and not empty, the message has a line for it and
    speaks of the cuisine of that place; otherwise it has no such line and
    speaks of "the area". *)
Theorem recommendation_message_echo (q : RestaurantQuery) :
  contains ("Based on your request: '" +:+ query q +:+ "'" +:+ LF)
           (recommendation_message q) = true ∧
  (∀ text, as_text (place q) = Some text →
     contains ("Location: " +:+ text +:+ LF +:+ LF)
              (recommendation_message q) = true ∧
     contains ("authentic cuisine specific to " +:+ text +:+ LF)
              (recommendation_message q) = true) ∧
  (as_text (place q) = None →
     recommendation_message q
     = "🎯 **Restaurant Recommendations**" +:+ LF +:+ LF
       +:+ "Based on your request: '" +:+ query q +:+ "'" +:+ LF
       +:+ "Here are some great options I'd recommend:" +:+ LF +:+ LF
       +:+ "• Look for highly-rated local favorites" +:+ LF
       +:+ "• Consider trying authentic cuisine specific to the area" +:+ LF
       +:+ "• Check recent reviews for current quality" +:+ LF +:+ LF
       +:+ "Would you like me to search for something more specific?").
Proof.
  unfold recommendation_message. rewrite or_else_as_text. split_and!.
  - destruct (as_text (place q)); rewrite !app_assoc; find_parts.
  - intros text ->. simpl. rewrite !app_assoc. split.
    + find_parts.
    + change "• Consider trying authentic cuisine specific to "
        with ("• Consider trying " +:+ "authentic cuisine specific to ").
      rewrite !app_assoc. find_parts.
  - intros ->. simpl. rewrite !app_assoc. reflexivity.
Qed.






(** X17. An optional field that holds the empty text counts as absent:
    the messages of a search and of a recommendation do not change when
    such fields are cleared. *)
Theorem messages_ignore_empty_fields (q : RestaurantQuery) :
  search_message (tidy q) = search_message q ∧
  recommendation_message (tidy q) = recommendation_message q.
Proof.
  unfold search_message, search_summary, top_results, generic_results,
    recommendation_message, wants_butter_chicken, add_line, tidy. simpl.
  by rewrite !or_else_as_text, !as_text_idemp.
Qed.

End Messages.

(** ** The tools in the executor's input *)

Section Tools.
Variable self : Agent.

Lemma join_contains (sep x : string) (l : list string) :
  x ∈ l → contains x (join sep l) = true.
Proof.
  induction l as [|y l IH]; [by intros ?%elem_of_nil|].
  intros [->|Hx]%elem_of_cons.
  - destruct l; [apply contains_refl|].
    apply contains_app_l, contains_refl.
  - destruct l as [|z l]; [by apply elem_of_nil in Hx|].
    change (contains x (y +:+ sep +:+ join sep (z :: l)) = true).
    do 2 apply contains_app_r. by apply IH.
Qed.

(** X18. Every tool of the agent is announced to the executor: its name
    occurs in the entry "tool_names" and its line "name: description" in
    the entry "tools".  An agent without tools gives two empty entries. *)
Theorem invoke_lists_tools (state : AgentState) (d : gmap string string) :
  d ∈ ainvoke_inputs (invoke self state).2 →
  ∃ listing names,
    d !! "tools" = Some listing ∧ d !! "tool_names" = Some names ∧
    (∀ tool, tool ∈ tools self →
       contains (name tool +:+ ": " +:+ description tool) listing = true ∧
       contains (name tool) names = true) ∧
    (tools self = [] → listing = EmptyString ∧ names = EmptyString).
Proof.
  destruct (invoke_shape self state)
    as [(e & _ & ->)|(first & content & d' & tr & _ & _ & Hd & ->)];
    [by intros ?%elem_of_nil|].
  destruct (add_memory_context_quiet self _ _ _ Hd) as (Htr & _).
  cbn [snd]. rewrite (tail_inputs _ _ _ _ Htr).
  intros ->%list_elem_of_singleton.
  pose proof (add_memory_context_keeps self _ _ _ Hd) as Hkeep.
  eexists _, _. rewrite !Hkeep by done.
  split; [unfold base_input; by simplify_map_eq|].
  split; [unfold base_input; by simplify_map_eq|]. split.
  - intros tool Htool. split; apply join_contains.
    + by apply (list_elem_of_fmap_2
                  (λ tool, name tool +:+ ": " +:+ description tool)).
    + by apply (list_elem_of_fmap_2 name).
  - by intros ->.
Qed.

End Tools.

(** ** The logging handler *)

Section Logging.

Lemma log_prompts_records (i : nat) (prompts : list string) :
  log_prompts i prompts
  = (Return (),
     imap (λ j prompt,
             Log INFO ("Prompt " +:+ pretty (i + j) +:+ ":" +:+ LF
                       +:+ prompt +:+ LF))
          prompts).
Proof.
  revert i. induction prompts as [|prompt prompts IH]; intros i; [done|].
  simpl. rewrite IH. unfold logger, call, bind. simpl.
  rewrite Nat.add_0_r. do 2 f_equal. apply imap_ext.
  intros j p _. simpl. by rewrite Nat.add_succ_r.
Qed.

(** X19. [on_llm_start] logs a heading and then every prompt, in full and
    in order: the prompt at index [k] is record [k + 1], under the title
    "Prompt k:".  It logs nothing else and does not raise. *)
Theorem on_llm_start_records (prompts : list string) :
  (on_llm_start prompts).1 = Return () ∧
  length (on_llm_start prompts).2 = S (length prompts) ∧
  ∀ k prompt,
    prompts !! k = Some prompt →
    (on_llm_start prompts).2 !! S k
    = Some (Log INFO ("Prompt " +:+ pretty k +:+ ":" +:+ LF +:+ prompt
                      +:+ LF)).
Proof.
  unfold on_llm_start, logger, call, bind.
  rewrite log_prompts_records. simpl. split; [done|].
  split; [by rewrite length_imap|].
  intros k prompt Hk. by rewrite list_lookup_imap, Hk.
Qed.

End Logging.

(** ** Failures of the executor, seen from the caller *)

Section Degraded.
Variable self : Agent.
Variables uuid request : string.

Lemma nonempty_error_text (e : exn) :
  as_text (Some ("Error processing request: " +:+ str e))
  = Some ("Error processing request: " +:+ str e).
Proof. done. Qed.


(** X21. The memory is consulted at most once, before the executor, and
    with the dictionary of lines 352-358, which has no "context" yet; it is
    not consulted at all when no memory is configured or when the first
    message cannot be read. *)
Theorem invoke_memory_calls (state : AgentState) :
  (∀ first content,
     messages state !! 0 = Some first → first !! "content" = Some content →
     memory_loads (invoke self state).2
     = match memory self with
       | Some _ => [ base_input self state content ]
       | None => []
       end ∧
     ∀ d, d ∈ memory_loads (invoke self state).2 →
          ∃ tr1 tr2 d',
            (invoke self state).2
            = tr1 ++ LoadMemoryVariables d :: tr2 ++ [ Ainvoke d' ]
              ++ [ final_log (wait_for (agent_executor self d')) ] ∧
            d !! "context" = None) ∧
  (∀ e, (input_dict_of self state).1 = Raise e →
        memory_loads (invoke self state).2 = []).
Proof.
  split.
  - intros first content H0 Hc.
    destruct (add_memory_context_spec self (base_input self state content))
      as (d' & tr & Hd & _).
    rewrite (invoke_full self state first content d' tr H0 Hc Hd).
    cbn [snd].
    destruct (event_lists_app tr
      [ Log INFO ("Invoking agent with input: " +:+ content); Ainvoke d';
        final_log (wait_for (agent_executor self d')) ]) as (_ & _ & _ & ->).
    assert (memory_loads
              [ Log INFO ("Invoking agent with input: " +:+ content);
                Ainvoke d';
                final_log (wait_for (agent_executor self d')) ] = []) as ->
      by (by destruct (wait_for (agent_executor self d')) as [|[]]).
    rewrite app_nil_r. rewrite add_memory_context_full in Hd.
    pose proof (base_input_context self state content) as Hctx.
    destruct (memory self) as [load|].
    + assert (∃ tr', tr = LoadMemoryVariables (base_input self state content)
                          :: tr' ∧ memory_loads tr' = []) as (tr' & -> & Htr').
      { destruct (load _) as [vars|e].
        - destruct (as_text _); injection Hd as _ <-; by eexists.
        - injection Hd as _ <-. by eexists. }
      simpl. rewrite Htr'. split; [done|].
      intros d ->%list_elem_of_singleton.
      exists [], (tr' ++ [ Log INFO ("Invoking agent with input: "
                                       +:+ content) ]), d'.
      split; [|done]. simpl. by rewrite <- !(assoc_L (++)).
    + injection Hd as _ <-. split; [done|]. by intros d ?%elem_of_nil.
  - intros e He.
    destruct (input_dict_of_cases self state)
      as [[e' He']|(d0 & c & Hd0 & _)]; [|by rewrite Hd0 in He].
    by rewrite (invoke_raise_input self state e' He').
Qed.

End Degraded.

(** ** The further theorems at work on the sample agents *)

Section FurtherRuns.
Import Samples.

(** The dictionary that reaches the executor of [mindful]. *)
Lemma invoke_executor_input_witness :
  <["context" := "Likes Naples"]> pizza_input
    ∈ ainvoke_inputs (invoke mindful (initial_state "t1" "pizza")).2 ∧
  delete "context" (<["context" := "Likes Naples"]> pizza_input)
  = base_input mindful (initial_state "t1" "pizza") "pizza" ∧
  (<["context" := "Likes Naples"]> pizza_input : gmap string string)
    !! "input" = Some "pizza".
Proof.
  assert (<["context" := "Likes Naples"]> pizza_input
            ∈ ainvoke_inputs (invoke mindful (initial_state "t1" "pizza")).2)
    as Hin by (vm_compute; apply list_elem_of_here).
  split; [exact Hin|].
  destruct (invoke_executor_input mindful _ _ Hin)
    as (first & content & H0 & Hc & Hinput & _ & _ & Hdel & _).
  injection H0 as <-. vm_compute in Hc. injection Hc as <-.
  split; [exact Hdel|exact Hinput].
Defined.

(** The context that the memory of [mindful] supplies. *)
Lemma invoke_context_iff_witness :
  <["context" := "Likes Naples"]> pizza_input
    ∈ ainvoke_inputs (invoke mindful (initial_state "t1" "pizza")).2 ∧
  (<["context" := "Likes Naples"]> pizza_input : gmap string string)
    !! "context" = Some "Likes Naples" ∧
  ∃ load vars,
    memory mindful = Some load ∧
    load (delete "context" (<["context" := "Likes Naples"]> pizza_input))
    = Return vars ∧
    vars !! "enhanced_context" = Some "Likes Naples" ∧
    "Likes Naples" ≠ EmptyString.
Proof.
  assert (<["context" := "Likes Naples"]> pizza_input
            ∈ ainvoke_inputs (invoke mindful (initial_state "t1" "pizza")).2)
    as Hin by (vm_compute; apply list_elem_of_here).
  split; [exact Hin|]. split; [vm_compute; reflexivity|].
  apply (invoke_context_iff mindful _ _ "Likes Naples" Hin).
  vm_compute. reflexivity.
Defined.

(** A second message changes nothing. *)
Lemma invoke_first_message_only_witness :
  messages two_messages !! 0 = messages (initial_state "t1" "pizza") !! 0 ∧
  thread_id two_messages = thread_id (initial_state "t1" "pizza") ∧
  (invoke slow two_messages).2
  = (invoke slow (initial_state "t1" "pizza")).2.
Proof.
  split; [reflexivity|]. split; [reflexivity|].
  apply (invoke_first_message_only slow two_messages
           (initial_state "t1" "pizza")); reflexivity.
Defined.

(** A message that has a role and no content. *)
Lemma invoke_missing_content_witness :
  ({[ "role" := "user" ]} : gmap string string) !! "content" = None ∧
  invoke slow {| messages := [ {[ "role" := "user" ]} ];
                 thread_id := "t1"; output := None |}
  = (Return {| messages := [ {[ "role" := "user" ]} ];
               thread_id := "t1";
               output := Some "Error processing request: 'content'" |},
     [ Log ERROR "Error processing request: 'content'" ]).
Proof.
  split; [vm_compute; reflexivity|].
  apply (invoke_missing_content slow
           {| messages := [ {[ "role" := "user" ]} ];
              thread_id := "t1"; output := None |}
           {[ "role" := "user" ]}); [reflexivity|vm_compute; reflexivity].
Defined.

(** An executor that returns an output. *)
Lemma invoke_output_default_witness :
  pizza_input
    ∈ ainvoke_inputs
        (invoke (quick (Some "Try Da Michele.")) (initial_state "t1" "pizza")).2 ∧
  wait_for (agent_executor (quick (Some "Try Da Michele.")) pizza_input)
  = Return {[ "output" := Some "Try Da Michele." ]} ∧
  (invoke (quick (Some "Try Da Michele.")) (initial_state "t1" "pizza")).1
  = Return (set_output (initial_state "t1" "pizza")
              (Some "Try Da Michele.")).
Proof.
  assert (pizza_input
            ∈ ainvoke_inputs
                (invoke (quick (Some "Try Da Michele."))
                        (initial_state "t1" "pizza")).2)
    as Hin by (vm_compute; apply list_elem_of_here).
  split; [exact Hin|]. split; [reflexivity|].
  destruct (invoke_output_default (quick (Some "Try Da Michele."))
              (initial_state "t1" "pizza") pizza_input
              {[ "output" := Some "Try Da Michele." ]} Hin eq_refl)
    as [Hvalue _].
  apply Hvalue. vm_compute. reflexivity.
Defined.

(** The error that [slow] logs is its output. *)
Lemma invoke_error_is_output_witness :
  "Agent execution timed out after 20 seconds"
    ∈ error_logs (invoke slow (initial_state "t1" "pizza")).2 ∧
  (invoke slow (initial_state "t1" "pizza")).1
  = Return (set_output (initial_state "t1" "pizza")
              (Some "Agent execution timed out after 20 seconds")).
Proof.
  assert ("Agent execution timed out after 20 seconds"
            ∈ error_logs (invoke slow (initial_state "t1" "pizza")).2)
    as Hin by (vm_compute; apply list_elem_of_here).
  split; [exact Hin|].
  apply (invoke_error_is_output slow (initial_state "t1" "pizza") _ Hin).
Defined.

(** An executor that returns [None] as its output. *)
Lemma handle_request_failure_iff_witness :
  (∀ d, wait_for (agent_executor (quick None) d)
        = Return {[ "output" := None ]}) ∧
  (handle_request (quick None) "t1" "pizza").1
  = Return (failure "No response generated" "Agent did not generate output").
Proof.
  split; [reflexivity|].
  destruct (handle_request_failure_iff (quick None) "t1" "pizza")
    as (d & resp & _ & Hresp & Hiff & Hfail & _).
  rewrite Hresp. f_equal. apply Hfail, Hiff.
  exists {[ "output" := None ]}. split; [reflexivity|].
  left. vm_compute. reflexivity.
Defined.

(** The parser is asked about "pizza", and its command is attached. *)
Lemma handle_request_parser_calls_witness :
  parse_requests
    (handle_request (quick (Some "Try Da Michele.")) "t1" "pizza").2
  = [ "pizza" ] ∧
  command_parser (quick (Some "Try Da Michele.")) "pizza"
  = Return (SearchCommand
              {| query := "pizza"; place := None; cuisine := None;
                 price_range := None; dietary_restrictions := None |}).
Proof.
  destruct (handle_request_parser_calls (quick (Some "Try Da Michele."))
              "t1" "pizza") as (resp & Hresp & Hcalls & Hcommand).
  assert (resp
          = {| success := true; message := "Try Da Michele.";
               error := None;
               parsed_command :=
                 Some (SearchCommand
                         {| query := "pizza"; place := None; cuisine := None;
                            price_range := None;
                            dietary_restrictions := None |}) |}) as ->.
  { assert ((handle_request (quick (Some "Try Da Michele.")) "t1" "pizza").1
            = Return
                {| success := true; message := "Try Da Michele.";
                   error := None;
                   parsed_command :=
                     Some (SearchCommand
                             {| query := "pizza"; place := None;
                                cuisine := None; price_range := None;
                                dietary_restrictions := None |}) |}) as E
      by (vm_compute; reflexivity).
    rewrite E in Hresp. by injection Hresp as <-. }
  split; [exact Hcalls|]. apply Hcommand. reflexivity.
Defined.


(** The line for the place "Delhi". *)
Lemma search_message_echo_witness :
  as_text (place butter_chicken_in_delhi) = Some "Delhi" ∧
  contains ("**Location:** " +:+ "Delhi" +:+ LF)
           (search_message butter_chicken_in_delhi) = true.
Proof.
  split; [reflexivity|].
  destruct (search_message_echo butter_chicken_in_delhi) as (_ & H & _).
  apply H. reflexivity.
Defined.

(** The three results in "Delhi". *)
Lemma top_results_located_witness :
  wants_butter_chicken butter_chicken_in_delhi = true ∧
  as_text (place butter_chicken_in_delhi) = Some "Delhi" ∧
  contains ("2. **Punjabi By Nature** - " +:+ "Delhi" +:+ LF)
           (search_message butter_chicken_in_delhi) = true.
Proof.
  split; [reflexivity|]. split; [reflexivity|].
  destruct (top_results_located butter_chicken_in_delhi) as [H _];
    [reflexivity|].
  destruct (H "Delhi") as (_ & H2 & _); [reflexivity|]. exact H2.
Defined.

(** A recommendation for pizza in "Rome". *)
Lemma recommendation_message_echo_witness :
  as_text (place pizza_query) = Some "Rome" ∧
  contains ("Location: " +:+ "Rome" +:+ LF +:+ LF)
           (recommendation_message pizza_query) = true.
Proof.
  split; [reflexivity|].
  destruct (recommendation_message_echo pizza_query) as (_ & H & _).
  destruct (H "Rome") as [H1 _]; [reflexivity|]. exact H1.
Defined.


(** The first tool in the input of [slow]. *)
Lemma invoke_lists_tools_witness :
  pizza_input ∈ ainvoke_inputs (invoke slow (initial_state "t1" "pizza")).2 ∧
  ∃ names,
    pizza_input !! "tool_names" = Some names ∧
    contains "search_restaurants" names = true.
Proof.
  assert (pizza_input
            ∈ ainvoke_inputs (invoke slow (initial_state "t1" "pizza")).2)
    as Hin by (vm_compute; apply list_elem_of_here).
  split; [exact Hin|].
  destruct (invoke_lists_tools slow _ _ Hin)
    as (listing & names & _ & Hnames & Htools & _).
  exists names. split; [exact Hnames|].
  apply (Htools {| name := "search_restaurants";
                   description := "Search for restaurants" |}).
  apply list_elem_of_here.
Defined.

(** Two prompts. *)
Lemma on_llm_start_records_witness :
  [ "Hello"; "World" ] !! 1 = Some "World" ∧
  (on_llm_start [ "Hello"; "World" ]).2 !! 2
  = Some (Log INFO ("Prompt " +:+ "1" +:+ ":" +:+ LF +:+ "World" +:+ LF)).
Proof.
  split; [reflexivity|].
  destruct (on_llm_start_records [ "Hello"; "World" ]) as (_ & _ & H).
  apply (H 1 "World"). reflexivity.
Defined.


(** The one call of the memory of [forgetful]. *)
Lemma invoke_memory_calls_witness :
  messages (initial_state "t1" "pizza") !! 0
  = Some (<["role" := "user"]> (<["content" := "pizza"]> ∅)) ∧
  memory_loads (invoke forgetful (initial_state "t1" "pizza")).2
  = [ base_input forgetful (initial_state "t1" "pizza") "pizza" ].
Proof.
  split; [reflexivity|].
  destruct (invoke_memory_calls forgetful (initial_state "t1" "pizza"))
    as [H _].
  destruct (H (<["role" := "user"]> (<["content" := "pizza"]> ∅)) "pizza")
    as [Hloads _]; [reflexivity|vm_compute; reflexivity|].
  exact Hloads.
Defined.

End FurtherRuns.
